(** * Merkle allowlist engine: src/helpers/MerkleTree.ts

    A shallow embedding of the [MerkleTree] class and the properties of
    its builder, proof generator and proof verifiers.

    Conventions of the embedding:
    - a [Buffer] is the list of its bytes;
    - an identity string is a [string] holding the bytes that
      [Buffer.from(str)] produces (its UTF-8 encoding);
    - a JavaScript value that may be [undefined] is an [option];
    - an index of type [number] is an integer of [Z]; an array position
      handed to a [reduce] callback is a [nat];
    - a call that can throw returns a [result];
    - [keccak_256.digest] comes from the js-sha3 package and is a
      parameter of the development. *)

From Stdlib Require Import Strings.Ascii Strings.String Strings.Byte.
From Stdlib Require Import List ZArith NArith Lia Bool Arith PeanoNat.
From Equations Require Import Equations.
Import ListNotations.

(** ** The JavaScript runtime pieces the class relies on *)

Module JS.

Inductive error : Type :=
| TypeError.

Inductive result (A : Type) : Type :=
| Ok (a : A)
| Throw (e : error).

Arguments Ok {A} a.
Arguments Throw {A} e.

Definition bind {A B : Type} (r : result A) (k : A -> result B) : result B :=
  match r with
  | Ok a => k a
  | Throw e => Throw e
  end.

(** [arr[i]] for an integer [i]: [undefined] outside [0 .. length-1]. *)
Definition index {A : Type} (arr : list A) (i : Z) : option A :=
  if (i <? 0)%Z then None else nth_error arr (Z.to_nat i).

(** [arr[arr.length - 1]]. *)
Definition last_elem {A : Type} (arr : list A) : option A :=
  index arr (Z.of_nat (length arr) - 1).

(** [Array.prototype.reduce(callback, init)]: the callback receives the
    accumulator, the current element, its position and the array. *)
Fixpoint reduce_from {A B : Type} (f : B -> A -> nat -> list A -> B)
         (arr : list A) (idx : nat) (rest : list A) (acc : B) : B :=
  match rest with
  | [] => acc
  | cur :: tl => reduce_from f arr (S idx) tl (f acc cur idx arr)
  end.

Definition reduce {A B : Type} (f : B -> A -> nat -> list A -> B)
           (init : B) (arr : list A) : B :=
  reduce_from f arr 0 arr init.

(** [ToInt32]: the coercion the bitwise operators apply to a number. *)
Definition toInt32 (z : Z) : Z :=
  ((z + 2 ^ 31) mod 2 ^ 32 - 2 ^ 31)%Z.

(** [a ^ b] on numbers. *)
Definition bitxor (a b : Z) : Z :=
  Z.lxor (toInt32 a) (toInt32 b).

(** [Math.floor(a / 2)] on an integer. *)
Definition floor_half (a : Z) : Z := (a / 2)%Z.

(** The operand of a spread [...v]: a TypeError when [v] is
    [undefined]. *)
Definition spread {A : Type} (v : option (list A)) : result (list A) :=
  match v with
  | Some l => Ok l
  | None => Throw TypeError
  end.

(** A callback that can throw, run over an array from the front, as
    [arr.map(callback)] or a [for ... of] loop that pushes each result:
    the first throw ends the call. *)
Fixpoint traverse {A B : Type} (f : A -> result B) (arr : list A)
  : result (list B) :=
  match arr with
  | [] => Ok []
  | x :: rest =>
      match f x with
      | Throw e => Throw e
      | Ok y =>
          match traverse f rest with
          | Throw e => Throw e
          | Ok ys => Ok (y :: ys)
          end
      end
  end.

(** A method call [v.method()] on a value that may be [undefined]: a
    TypeError when it is. *)
Definition method_of {A B : Type} (f : A -> B) (v : option A) : result B :=
  match v with
  | Some a => Ok (f a)
  | None => Throw TypeError
  end.

(** [arr.indexOf(x)] on an array of strings: the first position holding
    [x], or -1. *)
Fixpoint indexOf_from (arr : list string) (x : string) (i : Z) : Z :=
  match arr with
  | [] => -1
  | y :: rest => if String.eqb y x then i else indexOf_from rest x (i + 1)
  end%Z.

Definition indexOf (arr : list string) (x : string) : Z :=
  indexOf_from arr x 0.

(** An object used as a map from property names to values: its own
    properties, the latest assignment first. *)
Definition object (V : Type) : Type := list (string * V).

(** [Object.assign(obj, { [key]: value })]. *)
Definition assign {V : Type} (obj : object V) (key : string) (value : V)
  : object V :=
  (key, value) :: obj.

(** [obj[key]]. *)
Fixpoint get {V : Type} (obj : object V) (key : string) : option V :=
  match obj with
  | [] => None
  | (k, v) :: rest => if String.eqb k key then Some v else get rest key
  end.

End JS.

Import JS.

Notation "x <- r ;; k" := (JS.bind r (fun x => k))
  (at level 61, r at next level, right associativity).

(** ** Node's Buffer *)

Definition Buffer : Type := list byte.

Module BufferOps.

(** [Buffer.from(str)]. *)
Definition from (s : string) : Buffer := list_byte_of_string s.

(** [Buffer.compare(a, b)]: -1, 0 or 1, comparing unsigned bytes from the
    front; a strict prefix sorts first. *)
Fixpoint compare (a b : Buffer) : Z :=
  match a, b with
  | [], [] => 0
  | [], _ :: _ => -1
  | _ :: _, [] => 1
  | x :: a', y :: b' =>
      match N.compare (Byte.to_N x) (Byte.to_N y) with
      | Lt => -1
      | Gt => 1
      | Eq => compare a' b'
      end
  end%Z.

(** [a.equals(b)]. *)
Fixpoint equals (a b : Buffer) : bool :=
  match a, b with
  | [], [] => true
  | x :: a', y :: b' => Byte.eqb x y && equals a' b'
  | _, _ => false
  end.

(** [[first, second].sort(cmp)] as a pair: ascending, and stable on a
    tie. *)
Definition sort_pair (cmp : Buffer -> Buffer -> Z) (first second : Buffer)
  : Buffer * Buffer :=
  if (0 <? cmp first second)%Z then (second, first) else (first, second).

(** [buf.values()], read to the end: the bytes as numbers. *)
Definition values (b : Buffer) : list Z :=
  map (fun x => Z.of_N (Byte.to_N x)) b.

(** [Buffer.from(array)] on an array of integers: each entry is kept
    modulo 256. *)
Definition from_array (arr : list Z) : Buffer :=
  map (fun z => match Byte.of_N (Z.to_N (z mod 256)) with
                | Some b => b
                | None => x00
                end) arr.

Definition hex_digit (n : N) : ascii :=
  nth (N.to_nat n)
      ["0"; "1"; "2"; "3"; "4"; "5"; "6"; "7";
       "8"; "9"; "a"; "b"; "c"; "d"; "e"; "f"]%char "0"%char.

(** [buf.toString("hex")]: two lowercase digits per byte, high digit
    first. *)
Fixpoint toString_hex (b : Buffer) : string :=
  match b with
  | [] => EmptyString
  | x :: rest =>
      String (hex_digit (Byte.to_N x / 16))
             (String (hex_digit (Byte.to_N x mod 16)) (toString_hex rest))
  end.

End BufferOps.

(** ** keccak_256 of js-sha3

    The package is outside the repository and the class below takes its
    [keccak_256.digest] as a parameter. This module is the function the
    package computes, the Keccak-f[1600] sponge with the original Keccak
    padding; it is used to run the class on concrete allowlists. *)

Module Keccak.

Local Open Scope Z_scope.

(** A lane is a 64-bit word, an integer of [0 .. 2^64 - 1]. *)
Definition mask64 : Z := 2 ^ 64 - 1.

Definition rotl64 (v : Z) (n : Z) : Z :=
  Z.land (Z.lor (Z.shiftl v n) (Z.shiftr v (64 - n))) mask64.

(** The state is 25 lanes; lane [(x, y)] sits at position [x + 5 y],
    coordinates taken modulo 5. *)
Definition lane (st : list Z) (x y : nat) : Z :=
  nth ((x mod 5) + 5 * (y mod 5))%nat st 0.

Definition round_constants : list Z :=
  [0x0000000000000001; 0x0000000000008082; 0x800000000000808A;
   0x8000000080008000; 0x000000000000808B; 0x0000000080000001;
   0x8000000080008081; 0x8000000000008009; 0x000000000000008A;
   0x0000000000000088; 0x0000000080008009; 0x000000008000000A;
   0x000000008000808B; 0x800000000000008B; 0x8000000000008089;
   0x8000000000008003; 0x8000000000008002; 0x8000000000000080;
   0x000000000000800A; 0x800000008000000A; 0x8000000080008081;
   0x8000000000008080; 0x0000000080000001; 0x8000000080008008].

Definition rotation_offsets : list Z :=
  [ 0;  1; 62; 28; 27;
   36; 44;  6; 55; 20;
    3; 10; 43; 25; 39;
   41; 45; 15; 21;  8;
   18;  2; 61; 56; 14].

Definition positions : list (nat * nat) :=
  flat_map (fun y => map (fun x => (x, y)) (seq 0 5)) (seq 0 5).

Definition theta (st : list Z) : list Z :=
  let c := fun x => fold_left Z.lxor (map (lane st x) (seq 0 5)) 0 in
  let d := fun x => Z.lxor (c (x + 4)%nat) (rotl64 (c (x + 1)%nat) 1) in
  map (fun '(x, y) => Z.lxor (lane st x y) (d x)) positions.

Definition rho_pi (st : list Z) : list Z :=
  map (fun '(x, y) =>
         let sx := ((x + 3 * y) mod 5)%nat in
         rotl64 (lane st sx x) (nth (sx + 5 * x)%nat rotation_offsets 0))
      positions.

Definition chi (st : list Z) : list Z :=
  map (fun '(x, y) =>
         Z.lxor (lane st x y)
                (Z.land (Z.lxor (lane st (x + 1) y) mask64)
                        (lane st (x + 2) y)))
      positions.

Definition iota (rc : Z) (st : list Z) : list Z :=
  match st with
  | [] => []
  | a :: rest => Z.lxor a rc :: rest
  end.

Definition round (st : list Z) (rc : Z) : list Z :=
  iota rc (chi (rho_pi (theta st))).

Definition permute (st : list Z) : list Z :=
  fold_left round round_constants st.

(** Keccak-256: 136 bytes of rate, 32 bytes of output, padding
    [0x01 .. 0x80]. *)
Definition rate : nat := 136.

Definition byte_of_Z (z : Z) : byte :=
  match Byte.of_N (Z.to_N (z mod 256)) with
  | Some b => b
  | None => x00
  end.

Definition Z_of_byte (b : byte) : Z := Z.of_N (Byte.to_N b).

(** Eight bytes to a lane, least significant byte first. *)
Fixpoint lane_of_bytes (bs : list Z) : Z :=
  match bs with
  | [] => 0
  | b :: rest => b + 256 * lane_of_bytes rest
  end.

Fixpoint lanes_of_bytes (n : nat) (bs : list Z) : list Z :=
  match n with
  | O => []
  | S n => lane_of_bytes (firstn 8 bs) :: lanes_of_bytes n (skipn 8 bs)
  end.

Definition bytes_of_lane (v : Z) : list Z :=
  map (fun i => Z.shiftr v (8 * Z.of_nat i) mod 256) (seq 0 8).

Fixpoint xor_into (st blk : list Z) : list Z :=
  match st, blk with
  | a :: st', b :: blk' => Z.lxor a b :: xor_into st' blk'
  | _, _ => st
  end.

Definition pad (len : nat) : list Z :=
  let fill := (rate - 1 - len mod rate)%nat in
  match fill with
  | O => [0x81]
  | S k => 0x01 :: repeat 0 k ++ [0x80]
  end.

Fixpoint absorb (blocks : nat) (st : list Z) (bs : list Z) : list Z :=
  match blocks with
  | O => st
  | S n =>
      absorb n (permute (xor_into st (lanes_of_bytes 17 (firstn rate bs))))
             (skipn rate bs)
  end.

Definition keccak_256 (message : list byte) : list byte :=
  let bs := map Z_of_byte message ++ pad (List.length message) in
  let st := absorb (List.length bs / rate) (repeat 0 25) bs in
  map byte_of_Z (flat_map bytes_of_lane (firstn 4 st)).

End Keccak.

(** ** Byte-wise lexicographic order, written from the words of the
    specification (section 4.1) *)

Module Lex.

Fixpoint leb (a b : Buffer) : bool :=
  match a, b with
  | [], _ => true
  | _ :: _, [] => false
  | x :: a', y :: b' =>
      if (Byte.to_N x <? Byte.to_N y)%N then true
      else if (Byte.to_N y <? Byte.to_N x)%N then false
      else leb a' b'
  end.

Definition min (a b : Buffer) : Buffer := if leb a b then a else b.
Definition max (a b : Buffer) : Buffer := if leb a b then b else a.

End Lex.

(** ** The class *)

Section MerkleTree.

(** [keccak_256.digest(bytes)] of js-sha3. *)
Variable keccak_256_digest : list byte -> list byte.

Record MerkleTree : Type := mkMerkleTree {
  data : list string;
  leafs : list Buffer;
  layers : list (list Buffer)
}.

Definition buildLeaves (data : list string) : list Buffer :=
  map BufferOps.from data.

Definition nodeHash (data : Buffer) : Buffer :=
  keccak_256_digest (x00 :: data).

Definition internalHash (first : Buffer) (second : option Buffer) : Buffer :=
  match second with
  | None => first
  | Some second =>
      let '(fst, snd) := BufferOps.sort_pair BufferOps.compare first second in
      keccak_256_digest (x01 :: fst ++ snd)
  end.

(** The callback of the [reduce] in the constructor. *)
Definition pair_step (acc : list Buffer) (cur : Buffer) (idx : nat)
           (arr : list Buffer) : list Buffer :=
  if idx mod 2 =? 0
  then acc ++ [internalHash cur (nth_error arr (idx + 1))]
  else acc.

Definition next_layer (hashes : list Buffer) : list Buffer :=
  JS.reduce pair_step [] hashes.

(** [this.layers[this.layers.length - 1][0]]: reading [[0]] of
    [undefined] throws; reading it of an empty layer is [undefined]. *)
Definition getRoot (t : MerkleTree) : result (option Buffer) :=
  match JS.last_elem (layers t) with
  | None => Throw TypeError
  | Some layer => Ok (JS.index layer 0)
  end.

(** The callback of the [reduce] in [getProof]. It assigns to the
    parameter [idx] of [getProof], so the state it threads is the proof
    array together with the current value of [idx]. An entry of the proof
    is [undefined] when the sibling position is negative. *)
Definition proof_step (st : list (option Buffer) * Z) (layer : list Buffer)
  : list (option Buffer) * Z :=
  let '(proof, idx) := st in
  let sibling := JS.bitxor idx 1 in
  let proof :=
    if (sibling <? Z.of_nat (length layer))%Z
    then proof ++ [JS.index layer sibling]
    else proof in
  (proof, JS.floor_half idx).

Definition getProof (t : MerkleTree) (idx : Z) : list (option Buffer) :=
  fst (JS.reduce (fun st layer _ _ => proof_step st layer) ([], idx)
                 (layers t)).

(** The loop shared by the three verifiers:
    [for (const item of proof) pair = internalHash(pair, item)]. *)
Definition fold_proof (pair : Buffer) (proof : list (option Buffer))
  : Buffer :=
  fold_left internalHash proof pair.

(** [nodeHash(this.leafs[idx])] spreads its argument, a TypeError when
    [idx] addresses no leaf. *)
Definition verifyProof (t : MerkleTree) (idx : Z)
           (proof : list (option Buffer)) (root : Buffer) : result bool :=
  leaf <- JS.spread (JS.index (leafs t) idx) ;;
  let pair := fold_proof (nodeHash leaf) proof in
  Ok (BufferOps.equals pair root).

Definition verifyRoot (t : MerkleTree) (idx : Z)
           (proof : list (option Buffer)) (root : Buffer) : result bool :=
  leaf <- JS.spread (JS.index (leafs t) idx) ;;
  let pair := fold_proof (nodeHash leaf) proof in
  Ok (BufferOps.equals pair root).

(** [pair.equals(this.getRoot())]: [equals] throws a TypeError on
    [undefined]. *)
Definition verifyClaim (t : MerkleTree) (item : string)
           (proof : list (option Buffer)) : result bool :=
  let pair := fold_proof (nodeHash (BufferOps.from item)) proof in
  root <- getRoot t ;;
  match root with
  | None => Throw TypeError
  | Some root => Ok (BufferOps.equals pair root)
  end.

(** *** The verifier of the specification

    Written from the words of the specification (sections 4.1 and 4.3),
    not from the class: the leaf is [Hash(0x00 || identity_bytes)], the
    combination is [Hash(0x01 || min(a,b) || max(a,b))] for the byte-wise
    lexicographic order, and the root is recomputed by starting from the
    leaf hash and combining with each sibling of the proof in order. *)

Definition spec_leaf (identity_bytes : Buffer) : Buffer :=
  keccak_256_digest (x00 :: identity_bytes).

Definition spec_internal (a b : Buffer) : Buffer :=
  keccak_256_digest (x01 :: Lex.min a b ++ Lex.max a b).

Fixpoint spec_recompute (current : Buffer) (siblings : list Buffer)
  : Buffer :=
  match siblings with
  | [] => current
  | s :: rest => spec_recompute (spec_internal current s) rest
  end.

Definition getRootArray (t : MerkleTree) : result (list Z) :=
  root <- getRoot t ;;
  JS.method_of BufferOps.values root.

Definition getProofArray (t : MerkleTree) (index : Z)
  : result (list (list Z)) :=
  JS.traverse (JS.method_of BufferOps.values) (getProof t index).

Definition getHexRoot (t : MerkleTree) : result string :=
  root <- getRoot t ;;
  JS.method_of BufferOps.toString_hex root.

Definition getHexProof (t : MerkleTree) (idx : Z) : result (list string) :=
  JS.traverse (JS.method_of BufferOps.toString_hex) (getProof t idx).

(** An entry of a proof array is [undefined] or a hash held by one of
    the layers [ls]. *)
Definition stored_or_undefined (ls : list (list Buffer))
           (e : option Buffer) : Prop :=
  match e with
  | None => True
  | Some b => exists layer, In layer ls /\ In b layer
  end.

(** *** Termination of the constructor's loop *)

(** What the [reduce] computes, by recursion on the layer. *)
Fixpoint pair_up (l : list Buffer) : list Buffer :=
  match l with
  | [] => []
  | [a] => [internalHash a None]
  | a :: b :: t => internalHash a (Some b) :: pair_up t
  end.

Lemma pair_step_even (acc : list Buffer) (cur : Buffer) (idx : nat)
      (arr : list Buffer) :
  Nat.even idx = true ->
  pair_step acc cur idx arr
  = acc ++ [internalHash cur (nth_error arr (idx + 1))].
Proof.
  intros Hev. unfold pair_step.
  apply Nat.even_spec in Hev. destruct Hev as [k ->].
  rewrite Nat.mul_comm, Nat.Div0.mod_mul. reflexivity.
Qed.

Lemma pair_step_odd (acc : list Buffer) (cur : Buffer) (idx : nat)
      (arr : list Buffer) :
  Nat.even idx = true ->
  pair_step acc cur (S idx) arr = acc.
Proof.
  intros Hev. unfold pair_step.
  apply Nat.even_spec in Hev. destruct Hev as [k ->].
  replace (S (2 * k)) with (1 + k * 2) by lia.
  rewrite Nat.Div0.mod_add. reflexivity.
Qed.

Lemma reduce_from_pair_step :
  forall (n : nat) (rest pre acc : list Buffer),
    length rest <= n ->
    Nat.even (length pre) = true ->
    JS.reduce_from pair_step (pre ++ rest) (length pre) rest acc
    = acc ++ pair_up rest.
Proof.
  induction n as [|n IH]; intros rest pre acc Hn Hev.
  - destruct rest; [simpl; now rewrite app_nil_r | simpl in Hn; lia].
  - destruct rest as [|a [|b t]].
    + simpl. now rewrite app_nil_r.
    + cbn [JS.reduce_from pair_up internalHash].
      rewrite pair_step_even by exact Hev.
      rewrite nth_error_app2 by lia.
      replace (length pre + 1 - length pre) with 1 by lia.
      reflexivity.
    + cbn [JS.reduce_from pair_up].
      rewrite pair_step_odd by exact Hev.
      rewrite pair_step_even by exact Hev.
      rewrite nth_error_app2 by lia.
      replace (length pre + 1 - length pre) with 1 by lia.
      cbn [nth_error].
      specialize (IH t (pre ++ [a; b])
                     (acc ++ [internalHash a (Some b)])).
      rewrite <- app_assoc in IH. cbn [app] in IH.
      rewrite length_app in IH. cbn [length] in IH.
      replace (length pre + 2) with (S (S (length pre))) in IH by lia.
      rewrite IH.
      * rewrite <- app_assoc. reflexivity.
      * simpl in Hn. lia.
      * rewrite Nat.even_succ_succ. exact Hev.
Qed.

Lemma next_layer_pair_up (hashes : list Buffer) :
  next_layer hashes = pair_up hashes.
Proof.
  unfold next_layer, JS.reduce.
  apply (reduce_from_pair_step (length hashes) hashes [] []);
    [lia | reflexivity].
Qed.

Lemma pair_up_length_aux :
  forall (n : nat) (l : list Buffer),
    length l <= n -> 2 * length (pair_up l) = length l + length l mod 2.
Proof.
  induction n as [|n IH]; intros l Hn.
  - destruct l; [reflexivity | simpl in Hn; lia].
  - destruct l as [|a [|b t]]; [reflexivity | reflexivity |].
    cbn [pair_up length].
    assert (Ht : length t <= n) by (simpl in Hn; lia).
    specialize (IH t Ht).
    replace (S (S (length t))) with (length t + 1 * 2) by lia.
    rewrite Nat.Div0.mod_add. lia.
Qed.

Lemma pair_up_length (l : list Buffer) :
  2 * length (pair_up l) = length l + length l mod 2.
Proof. apply (pair_up_length_aux (length l)). lia. Qed.

Lemma next_layer_shorter (a b : Buffer) (t : list Buffer) :
  length (next_layer (a :: b :: t)) < length (a :: b :: t).
Proof.
  rewrite next_layer_pair_up.
  pose proof (pair_up_length (a :: b :: t)) as H.
  pose proof (Nat.mod_upper_bound (length (a :: b :: t)) 2) as Hm.
  cbn [length] in *. lia.
Qed.

(** The [while] loop of the constructor: [hashes] is the current layer,
    [acc] the value of [this.layers]. The three clauses are
    [hashes.length] being 0 (loop not entered), 1 ([break] after the
    push) and at least 2. *)
Equations while_loop (hashes : list Buffer) (acc : list (list Buffer))
  : list (list Buffer) by wf (length hashes) lt :=
  while_loop [] acc := acc;
  while_loop [h] acc := acc ++ [[h]];
  while_loop (h1 :: h2 :: t) acc :=
    while_loop (next_layer (h1 :: h2 :: t)) (acc ++ [h1 :: h2 :: t]).
Next Obligation. apply next_layer_shorter. Qed.

Definition constructor (data : list string) : MerkleTree :=
  let leafs := buildLeaves data in
  let hashes := map nodeHash leafs in
  mkMerkleTree data leafs (while_loop hashes []).

(** *** The caller: [proofMemo] of the hook [useCandyMachineV3]

    The type [AllowLists] is declared outside the files at hand; it is
    taken from its use in the hook: an array of [{ groupLabel, list }]
    whose list entries are strings or arrays of bytes. The wallet is its
    [publicKey.toString()], or [None] when no wallet is connected. *)

Inductive ListItem : Type :=
| ItemString (s : string)
| ItemBytes (b : Buffer).

Record AllowList : Type := mkAllowList {
  groupLabel : string;
  list_ : list ListItem
}.

(** The root handed to [verifyProof]: [Uint8Array | string]. *)
Inductive MerkleRoot : Type :=
| RootBytes (b : Buffer)
| RootString (s : string).

(** [Buffer.from(merkleRoot)]. *)
Definition root_buffer (merkleRoot : MerkleRoot) : Buffer :=
  match merkleRoot with
  | RootBytes b => b
  | RootString s => BufferOps.from s
  end.

(** [typeof item === "string" ? item : Buffer.from(item).toString("hex")]. *)
Definition item_string (item : ListItem) : string :=
  match item with
  | ItemString s => s
  | ItemBytes b => BufferOps.toString_hex b
  end.

Definition string_list (al : AllowList) : list string :=
  map item_string (list_ al).

Record Merkle : Type := mkMerkle {
  tree : MerkleTree;
  proof : list (option Buffer)
}.

(** The callback of the [reduce] that fills [merkles]. *)
Definition merkles_step (publicKey : string) (prev : JS.object Merkle)
           (al : AllowList) : JS.object Merkle :=
  let stringList := string_list al in
  let tree := constructor stringList in
  let leaf := publicKey in
  let leafIndex := JS.indexOf stringList leaf in
  let proof := if (leafIndex =? -1)%Z then [] else getProof tree leafIndex in
  JS.assign prev (groupLabel al) (mkMerkle tree proof).

Definition merkles (publicKey : string) (allowLists : list AllowList)
  : JS.object Merkle :=
  JS.reduce (fun prev al _ _ => merkles_step publicKey prev al) []
            allowLists.

(** [proofMemo.verifyProof(merkleRoot, label)], as the memo builds it from
    [candyMachineOpts.allowLists] and [publicKey]; the label is "default"
    when the caller passes none. A label that no allowlist carries ends in
    [false] on both paths of the source: [merkles[label]] is missing, or
    the [find] over the allowlists is and the index is -1. *)
Definition proofMemo_verifyProof
           (allowLists : option (list AllowList)) (publicKey : option string)
           (merkleRoot : MerkleRoot) (label : option string) : result bool :=
  match allowLists with
  | None | Some [] => Ok true
  | Some (al0 :: als) =>
      match publicKey with
      | None => Ok false
      | Some publicKey =>
          let label := match label with
                       | Some l => l
                       | None => "default"%string
                       end in
          match JS.get (merkles publicKey (al0 :: als)) label with
          | None => Ok false
          | Some merkle =>
              let root := root_buffer merkleRoot in
              let stringList :=
                match find (fun al => String.eqb (groupLabel al) label)
                           (al0 :: als) with
                | Some al => string_list al
                | None => []
                end in
              let leafIndex := JS.indexOf stringList publicKey in
              if (leafIndex =? -1)%Z then Ok false
              else verifyProof (tree merkle) leafIndex (proof merkle) root
          end
      end
  end.

(** *** The memo [tokenHoldings] of the hook

    A [PublicKey] is its 32 bytes, and [a.equals(b)] compares them. Of
    [Metadata] the memo reads [address] only. *)

Record Token : Type := mkToken {
  mint : Buffer;
  balance : Z;
  decimals : Z
}.

Record Metadata : Type := mkMetadata {
  address : Buffer
}.

Definition tokenHoldings (nftHoldings : list Metadata)
           (allTokens : list Token) : list Token :=
  if (length nftHoldings =? 0) || (length allTokens =? 0) then []
  else filter
         (fun x =>
            match find (fun y => BufferOps.equals (mint x) (address y))
                       nftHoldings with
            | Some _ => false
            | None => true
            end)
         allTokens.

(** *** Facts about the runtime pieces *)

Lemma reduce_from_fold_left {A B : Type} (g : B -> A -> B)
      (arr rest : list A) (idx : nat) (acc : B) :
  JS.reduce_from (fun st x _ _ => g st x) arr idx rest acc
  = fold_left g rest acc.
Proof.
  revert idx acc.
  induction rest as [|x rest IH]; intros idx acc; [reflexivity |].
  cbn [JS.reduce_from fold_left]. apply IH.
Qed.

Lemma index_of_nat {A : Type} (arr : list A) (i : nat) :
  JS.index arr (Z.of_nat i) = nth_error arr i.
Proof.
  unfold JS.index.
  destruct (Z.ltb_spec (Z.of_nat i) 0) as [H|H]; [lia |].
  now rewrite Nat2Z.id.
Qed.

Lemma toInt32_small (z : Z) :
  (- 2 ^ 31 <= z < 2 ^ 31)%Z -> JS.toInt32 z = z.
Proof.
  intros H. unfold JS.toInt32.
  rewrite Z.mod_small by lia. lia.
Qed.

Lemma lxor_1_even (k : Z) : (0 <= k)%Z -> Z.lxor (2 * k) 1 = (2 * k + 1)%Z.
Proof. intros H. destruct k as [|p|p]; [reflexivity | reflexivity | lia]. Qed.

Lemma lxor_1_odd (k : Z) : (0 <= k)%Z -> Z.lxor (2 * k + 1) 1 = (2 * k)%Z.
Proof. intros H. destruct k as [|p|p]; [reflexivity | reflexivity | lia]. Qed.

Lemma bitxor_1_even (j : nat) :
  (Z.of_nat (2 * j) < 2 ^ 31)%Z ->
  JS.bitxor (Z.of_nat (2 * j)) 1 = Z.of_nat (2 * j + 1).
Proof.
  intros H. unfold JS.bitxor.
  rewrite !toInt32_small by lia.
  replace (Z.of_nat (2 * j)) with (2 * Z.of_nat j)%Z by lia.
  rewrite lxor_1_even by lia. lia.
Qed.

Lemma bitxor_1_odd (j : nat) :
  (Z.of_nat (2 * j + 1) < 2 ^ 31)%Z ->
  JS.bitxor (Z.of_nat (2 * j + 1)) 1 = Z.of_nat (2 * j).
Proof.
  intros H. unfold JS.bitxor.
  rewrite !toInt32_small by lia.
  replace (Z.of_nat (2 * j + 1)) with (2 * Z.of_nat j + 1)%Z by lia.
  rewrite lxor_1_odd by lia. lia.
Qed.

Lemma floor_half_of_nat (i : nat) :
  JS.floor_half (Z.of_nat i) = Z.of_nat (i / 2).
Proof.
  unfold JS.floor_half. now rewrite Nat2Z.inj_div.
Qed.

(** *** Buffer.compare and Buffer.equals *)

Lemma compare_antisym (a b : Buffer) :
  BufferOps.compare b a = (- BufferOps.compare a b)%Z.
Proof.
  revert b. induction a as [|x a IH]; intros [|y b]; try reflexivity.
  cbn [BufferOps.compare].
  rewrite (N.compare_antisym (Byte.to_N x) (Byte.to_N y)).
  destruct (N.compare (Byte.to_N x) (Byte.to_N y)); cbn [CompOpp];
    [apply IH | reflexivity | reflexivity].
Qed.

Lemma byte_to_N_inj (x y : byte) : Byte.to_N x = Byte.to_N y -> x = y.
Proof.
  intros E. pose proof (Byte.of_to_N x) as Hx.
  rewrite E, Byte.of_to_N in Hx. now injection Hx.
Qed.

Lemma compare_0_eq (a b : Buffer) :
  BufferOps.compare a b = 0%Z -> a = b.
Proof.
  revert b. induction a as [|x a IH]; intros [|y b]; cbn [BufferOps.compare];
    try discriminate; [reflexivity |].
  destruct (N.compare_spec (Byte.to_N x) (Byte.to_N y)) as [E|E|E];
    try discriminate.
  intros H. apply byte_to_N_inj in E. subst y. f_equal. now apply IH.
Qed.

Lemma equals_true_iff (a b : Buffer) :
  BufferOps.equals a b = true <-> a = b.
Proof.
  revert b. induction a as [|x a IH]; intros [|y b]; cbn [BufferOps.equals];
    try (split; [discriminate | discriminate]); [tauto |].
  rewrite andb_true_iff, IH. split.
  - intros [E ->]. apply Byte.byte_dec_bl in E. now subst.
  - intros E. injection E as -> ->. split; [now apply Byte.byte_dec_lb | reflexivity].
Qed.

Lemma equals_refl (a : Buffer) : BufferOps.equals a a = true.
Proof. now apply equals_true_iff. Qed.

Lemma internalHash_comm (a b : Buffer) :
  internalHash a (Some b) = internalHash b (Some a).
Proof.
  unfold internalHash, BufferOps.sort_pair.
  rewrite (compare_antisym a b).
  destruct (Z.ltb_spec 0 (BufferOps.compare a b)) as [H1|H1];
    destruct (Z.ltb_spec 0 (- BufferOps.compare a b)) as [H2|H2];
    try reflexivity; try lia.
  assert (E : BufferOps.compare a b = 0%Z) by lia.
  apply compare_0_eq in E. now subst.
Qed.

(** *** One layer to the next *)

Lemma nth_error_pair_up_aux :
  forall (n : nat) (l : list Buffer) (j : nat),
    length l <= n ->
    nth_error (pair_up l) j
    = match nth_error l (2 * j) with
      | Some a => Some (internalHash a (nth_error l (2 * j + 1)))
      | None => None
      end.
Proof.
  induction n as [|n IH]; intros l j Hn.
  - destruct l; [| simpl in Hn; lia].
    cbn [pair_up]. now rewrite !nth_error_nil.
  - destruct l as [|a [|b t]].
    + cbn [pair_up]. now rewrite !nth_error_nil.
    + destruct j as [|j]; [reflexivity |].
      cbn [pair_up nth_error].
      replace (2 * S j) with (S (S (2 * j))) by lia.
      cbn [nth_error]. now rewrite !nth_error_nil.
    + destruct j as [|j]; [reflexivity |].
      cbn [pair_up nth_error].
      replace (2 * S j + 1) with (S (S (2 * j + 1))) by lia.
      replace (2 * S j) with (S (S (2 * j))) by lia.
      cbn [nth_error]. apply IH. simpl in Hn. lia.
Qed.

Lemma nth_error_pair_up (l : list Buffer) (j : nat) :
  nth_error (pair_up l) j
  = match nth_error l (2 * j) with
    | Some a => Some (internalHash a (nth_error l (2 * j + 1)))
    | None => None
    end.
Proof. apply (nth_error_pair_up_aux (length l)). lia. Qed.

(** One step of [getProof] on a layer, at a position inside the layer:
    the entries it pushes fold the hash at [i] into the hash at
    [i / 2] of the next layer. *)
Lemma proof_step_layer (l : list Buffer) (i : nat) (h : Buffer)
      (acc : list (option Buffer)) :
  nth_error l i = Some h ->
  (Z.of_nat i < 2 ^ 31)%Z ->
  exists p0,
    proof_step (acc, Z.of_nat i) l = (acc ++ p0, Z.of_nat (i / 2))
    /\ nth_error (pair_up l) (i / 2) = Some (fold_proof h p0).
Proof.
  intros Hh Hlt.
  assert (Hi : i < length l) by (apply nth_error_Some; congruence).
  unfold proof_step. rewrite floor_half_of_nat.
  destruct (Nat.Even_or_Odd i) as [[j ->]|[j ->]].
  - rewrite bitxor_1_even by lia.
    replace (2 * j / 2) with j
      by (rewrite Nat.mul_comm, Nat.div_mul; [reflexivity | discriminate]).
    rewrite nth_error_pair_up, Hh.
    destruct (Z.ltb_spec (Z.of_nat (2 * j + 1)) (Z.of_nat (length l)))
      as [Hs|Hs].
    + exists [JS.index l (Z.of_nat (2 * j + 1))]. split; [reflexivity |].
      now rewrite index_of_nat.
    + exists []. split; [now rewrite app_nil_r |].
      assert (E : nth_error l (2 * j + 1) = None)
        by (apply nth_error_None; lia).
      now rewrite E.
  - rewrite bitxor_1_odd by lia.
    replace ((2 * j + 1) / 2) with j
      by (apply (Nat.div_unique _ 2 j 1); lia).
    destruct (Z.ltb_spec (Z.of_nat (2 * j)) (Z.of_nat (length l)))
      as [Hs|Hs]; [| lia].
    rewrite index_of_nat, nth_error_pair_up.
    destruct (nth_error l (2 * j)) as [a|] eqn:Ea.
    + exists [Some a]. split; [reflexivity |].
      rewrite Hh. cbn [fold_proof fold_left].
      now rewrite internalHash_comm.
    + apply nth_error_None in Ea. lia.
Qed.

Lemma proof_steps_acc (ls : list (list Buffer)) :
  forall (acc : list (option Buffer)) (idx : Z),
    fst (fold_left proof_step ls (acc, idx))
    = acc ++ fst (fold_left proof_step ls ([], idx)).
Proof.
  induction ls as [|l ls IH]; intros acc idx.
  - cbn. now rewrite app_nil_r.
  - cbn [fold_left]. unfold proof_step at 2 4.
    destruct (JS.bitxor idx 1 <? Z.of_nat (length l))%Z.
    + rewrite IH. rewrite (IH ([] ++ _)). now rewrite <- app_assoc.
    + apply IH.
Qed.

Lemma getProof_fold (t : MerkleTree) (idx : Z) :
  getProof t idx = fst (fold_left proof_step (layers t) ([], idx)).
Proof. unfold getProof, JS.reduce. now rewrite reduce_from_fold_left. Qed.

(** *** The list of layers *)

Lemma while_loop_acc_aux :
  forall (n : nat) (hashes : list Buffer) (acc : list (list Buffer)),
    length hashes <= n ->
    while_loop hashes acc = acc ++ while_loop hashes [].
Proof.
  induction n as [|n IH]; intros hashes acc Hn.
  - destruct hashes; [| simpl in Hn; lia].
    simp while_loop. now rewrite app_nil_r.
  - destruct hashes as [|a [|b t]]; simp while_loop.
    + now rewrite app_nil_r.
    + reflexivity.
    + pose proof (next_layer_shorter a b t) as Hs.
      rewrite (IH _ (acc ++ _)) by lia.
      rewrite (IH _ ([] ++ _)) by lia.
      now rewrite <- app_assoc.
Qed.

Lemma while_loop_acc (hashes : list Buffer) (acc : list (list Buffer)) :
  while_loop hashes acc = acc ++ while_loop hashes [].
Proof. apply (while_loop_acc_aux (length hashes)). lia. Qed.

(** The layers of a list of at least two hashes: the list itself, then
    the layers of its pairing. *)
Lemma while_loop_cons (a b : Buffer) (t : list Buffer) :
  while_loop (a :: b :: t) []
  = (a :: b :: t) :: while_loop (pair_up (a :: b :: t)) [].
Proof.
  simp while_loop. rewrite while_loop_acc, next_layer_pair_up. reflexivity.
Qed.

Lemma last_elem_cons {A : Type} (x : A) (ls : list A) (v : A) :
  JS.last_elem ls = Some v -> JS.last_elem (x :: ls) = Some v.
Proof.
  unfold JS.last_elem, JS.index. intros H.
  destruct ls as [|y ls]; [discriminate |].
  cbn [length] in *.
  destruct (Z.ltb_spec (Z.of_nat (S (length ls)) - 1) 0); [lia |].
  destruct (Z.ltb_spec (Z.of_nat (S (S (length ls))) - 1) 0); [lia |].
  replace (Z.to_nat (Z.of_nat (S (S (length ls))) - 1))
    with (S (Z.to_nat (Z.of_nat (S (length ls)) - 1))) by lia.
  exact H.
Qed.

Lemma constructor_layers (data : list string) :
  layers (constructor data)
  = while_loop (map nodeHash (map BufferOps.from data)) [].
Proof. reflexivity. Qed.

(** The proof collected along the layers of [hashes] from position [i]
    folds the hash at [i] into the single hash of the last layer. *)
Lemma layers_round_trip :
  forall (n : nat) (hashes : list Buffer) (i : nat) (h : Buffer),
    length hashes <= n ->
    nth_error hashes i = Some h ->
    (Z.of_nat i < 2 ^ 31)%Z ->
    exists r,
      JS.last_elem (while_loop hashes []) = Some [r]
      /\ fold_proof h
           (fst (fold_left proof_step (while_loop hashes [])
                           ([], Z.of_nat i))) = r.
Proof.
  induction n as [|n IH]; intros hashes i h Hn Hh Hlt.
  - destruct hashes; [| simpl in Hn; lia].
    rewrite nth_error_nil in Hh. discriminate.
  - destruct hashes as [|a [|b t]].
    + rewrite nth_error_nil in Hh. discriminate.
    + destruct i as [|i];
        [| cbn [nth_error] in Hh; rewrite nth_error_nil in Hh; discriminate].
      injection Hh as ->.
      exists h. simp while_loop. split; [reflexivity |].
      cbn [app fold_left]. unfold proof_step.
      replace (JS.bitxor (Z.of_nat 0) 1) with 1%Z by reflexivity.
      reflexivity.
    + rewrite while_loop_cons. cbn [fold_left].
      destruct (@proof_step_layer (a :: b :: t) i h [] Hh Hlt)
        as (p0 & Hstep & Hnext).
      rewrite Hstep, proof_steps_acc. cbn [app].
      pose proof (next_layer_shorter a b t) as Hs.
      rewrite next_layer_pair_up in Hs.
      destruct (IH (pair_up (a :: b :: t)) (i / 2) (fold_proof h p0))
        as (r & Hlast & Hfold); [lia | exact Hnext | |].
      { pose proof (Nat.Div0.div_le_upper_bound i 2 i) as Hd.
        assert (i / 2 <= i) by (apply Hd; lia).
        apply Z.le_lt_trans with (Z.of_nat i); [| exact Hlt].
        now apply Nat2Z.inj_le. }
      exists r. split; [now apply last_elem_cons |].
      unfold fold_proof in *. now rewrite fold_left_app.
Qed.

Lemma while_loop_head (hashes : list Buffer) :
  hashes <> [] -> nth_error (while_loop hashes []) 0 = Some hashes.
Proof.
  intros Hne. destruct hashes as [|a [|b t]]; [congruence | |].
  - simp while_loop. reflexivity.
  - rewrite while_loop_cons. reflexivity.
Qed.

Lemma pair_up_not_nil (l : list Buffer) : l <> [] -> pair_up l <> [].
Proof. destruct l as [|a [|b t]]; cbn [pair_up]; congruence. Qed.

(** Consecutive layers: a stored layer of two or more hashes is followed
    by its pairing. *)
Lemma layers_succ :
  forall (n : nat) (hashes : list Buffer) (k : nat) (l : list Buffer),
    length hashes <= n ->
    nth_error (while_loop hashes []) k = Some l ->
    2 <= length l ->
    nth_error (while_loop hashes []) (S k) = Some (pair_up l).
Proof.
  induction n as [|n IH]; intros hashes k l Hn Hk Hl.
  - destruct hashes; [| simpl in Hn; lia].
    simp while_loop in Hk. rewrite nth_error_nil in Hk. discriminate.
  - destruct hashes as [|a [|b t]].
    + simp while_loop in Hk. rewrite nth_error_nil in Hk. discriminate.
    + simp while_loop in Hk. cbn [app] in Hk.
      destruct k as [|k]; cbn [nth_error] in Hk.
      * injection Hk as <-. cbn [length] in Hl. lia.
      * rewrite nth_error_nil in Hk. discriminate.
    + rewrite while_loop_cons in *.
      destruct k as [|k]; cbn [nth_error] in *.
      * injection Hk as <-. apply while_loop_head.
        apply pair_up_not_nil. discriminate.
      * pose proof (next_layer_shorter a b t) as Hs.
        rewrite next_layer_pair_up in Hs.
        apply IH; [lia | exact Hk | exact Hl].
Qed.

Lemma last_elem_Some {A : Type} (ls : list A) :
  ls <> [] -> exists v, JS.last_elem ls = Some v.
Proof.
  induction ls as [|x ls IH]; intros Hne; [congruence |].
  destruct ls as [|y ls].
  - exists x. reflexivity.
  - destruct IH as [v Hv]; [discriminate |].
    exists v. now apply last_elem_cons.
Qed.

Lemma pair_up_last_odd :
  forall (n : nat) (l : list Buffer),
    length l <= n ->
    Nat.odd (length l) = true ->
    JS.last_elem (pair_up l) = JS.last_elem l.
Proof.
  induction n as [|n IH]; intros l Hn Hodd.
  - destruct l; [discriminate | simpl in Hn; lia].
  - destruct l as [|a [|b t]]; [discriminate | reflexivity |].
    cbn [length] in Hodd. rewrite Nat.odd_succ_succ in Hodd.
    assert (Ht : t <> []) by (destruct t; [discriminate | discriminate]).
    destruct (last_elem_Some t Ht) as [v Hv].
    assert (Hp : JS.last_elem (pair_up t) = Some v).
    { rewrite IH; [exact Hv | simpl in Hn; lia | exact Hodd]. }
    cbn [pair_up].
    transitivity (Some v); [now apply last_elem_cons |].
    symmetry. apply last_elem_cons. now apply last_elem_cons.
Qed.

Lemma log2_up_half (n m : nat) :
  2 <= n -> 2 * m = n + n mod 2 -> Nat.log2_up n = S (Nat.log2_up m).
Proof.
  intros Hn Hm.
  pose proof (Nat.mod_upper_bound n 2) as Hmod.
  destruct (Nat.eq_dec m 1) as [->|Hm1].
  - assert (n = 2) by lia. subst n. reflexivity.
  - assert (H1 : 1 < m) by lia.
    pose proof (Nat.log2_up_spec m H1) as [Hlo Hhi].
    pose proof (Nat.log2_up_pos m H1) as Hpos.
    destruct (Nat.log2_up m) as [|c] eqn:Ec; [lia |].
    cbn [Nat.pred] in Hlo.
    apply Nat.log2_up_unique; [lia |].
    cbn [Nat.pred]. rewrite !Nat.pow_succ_r' in *. lia.
Qed.

Lemma while_loop_length :
  forall (n : nat) (hashes : list Buffer),
    length hashes <= n ->
    1 <= length hashes ->
    length (while_loop hashes []) = Nat.log2_up (length hashes) + 1.
Proof.
  induction n as [|n IH]; intros hashes Hn H1; [lia |].
  destruct hashes as [|a [|b t]]; [simpl in H1; lia | |].
  - simp while_loop. reflexivity.
  - rewrite while_loop_cons. cbn [length].
    pose proof (next_layer_shorter a b t) as Hs.
    rewrite next_layer_pair_up in Hs.
    pose proof (pair_up_length (a :: b :: t)) as Hp.
    cbn [length] in Hs, Hp, Hn.
    rewrite IH.
    + rewrite (@log2_up_half (S (S (length t)))
                             (length (pair_up (a :: b :: t))));
        [lia | lia | exact Hp].
    + lia.
    + assert (pair_up (a :: b :: t) <> [])
        by (apply pair_up_not_nil; discriminate).
      destruct (pair_up (a :: b :: t)); [congruence | simpl; lia].
Qed.

Lemma compare_leb (a b : Buffer) :
  (0 <? BufferOps.compare a b)%Z = negb (Lex.leb a b).
Proof.
  revert b. induction a as [|x a IH]; intros [|y b]; try reflexivity.
  cbn [BufferOps.compare Lex.leb].
  destruct (N.compare_spec (Byte.to_N x) (Byte.to_N y)) as [E|E|E].
  - rewrite E, N.ltb_irrefl. apply IH.
  - apply N.ltb_lt in E. now rewrite E.
  - assert (E' : (Byte.to_N x <? Byte.to_N y)%N = false)
      by (apply N.ltb_ge; lia).
    apply N.ltb_lt in E. now rewrite E', E.
Qed.

Lemma constructor_leafs (data : list string) :
  leafs (constructor data) = map BufferOps.from data.
Proof. reflexivity. Qed.

Lemma getRoot_of_last (t : MerkleTree) (r : Buffer) :
  JS.last_elem (layers t) = Some [r] -> getRoot t = Ok (Some r).
Proof. intros H. unfold getRoot. rewrite H. reflexivity. Qed.

Lemma nth_error_hashes (data : list string) (k : nat) (s : string) :
  nth_error data k = Some s ->
  nth_error (map nodeHash (map BufferOps.from data)) k
  = Some (nodeHash (BufferOps.from s)).
Proof. intros H. rewrite !nth_error_map, H. reflexivity. Qed.

Lemma nth_error_in_range {A : Type} (l : list A) (k : nat) :
  k < length l -> exists x, nth_error l k = Some x.
Proof.
  intros H. destruct (nth_error l k) as [x|] eqn:E; [now exists x |].
  apply nth_error_None in E. lia.
Qed.

Lemma index_In {A : Type} (arr : list A) (i : Z) (x : A) :
  JS.index arr i = Some x -> In x arr.
Proof.
  unfold JS.index. destruct (i <? 0)%Z; [discriminate |].
  apply nth_error_In.
Qed.

Lemma proof_steps_entries (all : list (list Buffer)) :
  forall (ls : list (list Buffer)) (acc : list (option Buffer)) (idx : Z),
    incl ls all ->
    Forall (stored_or_undefined all) acc ->
    Forall (stored_or_undefined all)
           (fst (fold_left proof_step ls (acc, idx)))
    /\ length (fst (fold_left proof_step ls (acc, idx)))
       <= length acc + length ls.
Proof.
  induction ls as [|l ls IH]; intros acc idx Hincl Hacc.
  - cbn. split; [exact Hacc | lia].
  - cbn [fold_left]. unfold proof_step at 2 4.
    assert (Hl : In l all) by (apply Hincl; now left).
    assert (Hls : incl ls all)
      by (intros x Hx; apply Hincl; now right).
    destruct (JS.bitxor idx 1 <? Z.of_nat (length l))%Z.
    + destruct (IH (acc ++ [JS.index l (JS.bitxor idx 1)])
                   (JS.floor_half idx) Hls) as [HF HL].
      * apply Forall_app. split; [exact Hacc |].
        constructor; [| constructor].
        destruct (JS.index l (JS.bitxor idx 1)) as [b|] eqn:E;
          [| exact I].
        exists l. split; [exact Hl | now apply index_In in E].
      * split; [exact HF |].
        rewrite length_app in HL. cbn [length] in *. lia.
    + destruct (IH acc (JS.floor_half idx) Hls Hacc) as [HF HL].
      split; [exact HF | cbn [length]; lia].
Qed.

Lemma verifyRoot_verifyProof (t : MerkleTree) (idx : Z)
      (proof : list (option Buffer)) (root : Buffer) :
  verifyRoot t idx proof root = verifyProof t idx proof root.
Proof. reflexivity. Qed.

Lemma verifyProof_no_leaf (t : MerkleTree) (idx : Z)
      (proof : list (option Buffer)) (root : Buffer) :
  JS.index (leafs t) idx = None ->
  verifyProof t idx proof root = Throw TypeError.
Proof. intros H. unfold verifyProof. rewrite H. reflexivity. Qed.

Lemma equals_false_iff (a b : Buffer) :
  BufferOps.equals a b = false <-> a <> b.
Proof.
  rewrite <- equals_true_iff.
  destruct (BufferOps.equals a b); split; congruence.
Qed.

Lemma internalHash_spec_internal (a b : Buffer) :
  internalHash a (Some b) = spec_internal a b.
Proof.
  unfold internalHash, spec_internal, BufferOps.sort_pair, Lex.min, Lex.max.
  rewrite compare_leb.
  destruct (Lex.leb a b); reflexivity.
Qed.

Lemma fold_internalHash_spec_recompute (siblings : list Buffer) :
  forall current : Buffer,
    fold_left internalHash (map Some siblings) current
    = spec_recompute current siblings.
Proof.
  induction siblings as [|s rest IH]; intros current; [reflexivity |].
  cbn [map fold_left spec_recompute].
  rewrite internalHash_spec_internal. apply IH.
Qed.

Lemma bool_false_iff_not (b : bool) (P : Prop) :
  (b = true <-> P) -> (b = false <-> ~ P).
Proof.
  intros [H1 H2]. destruct b; split; intros H.
  - discriminate.
  - exfalso. apply H. now apply H1.
  - intros HP. apply H2 in HP. discriminate.
  - reflexivity.
Qed.

(** ** The claims *)

(** C1. Membership round trip: on the tree built from a list of
    identities, for an index [i] inside the list, [verifyProof] called
    with [i], the proof that [getProof(i)] returns and the root that
    [getRoot()] returns answers [true]. The index is below [2^31], the
    range on which the 32-bit [idx ^ 1] of [getProof] is the integer
    exclusive or. *)
Theorem getProof_verifyProof_round_trip (data : list string) (i : Z) :
  (0 <= i < Z.of_nat (length data))%Z ->
  (i < 2 ^ 31)%Z ->
  exists root : Buffer,
    getRoot (constructor data) = Ok (Some root)
    /\ verifyProof (constructor data) i
                   (getProof (constructor data) i) root = Ok true.
Proof.
  intros Hi H31.
  remember (Z.to_nat i) as k eqn:Ek.
  assert (E : i = Z.of_nat k) by lia. subst i. clear Ek.
  destruct (@nth_error_in_range _ data k) as [s Hs]; [lia |].
  pose proof (nth_error_hashes data _ s Hs) as Hh.
  destruct (@layers_round_trip _ _ k _ (le_n _) Hh H31)
    as (r & Hlast & Hfold).
  exists r. split.
  - apply getRoot_of_last. now rewrite constructor_layers.
  - unfold verifyProof.
    rewrite constructor_leafs, index_of_nat, nth_error_map, Hs.
    cbn [option_map JS.spread JS.bind].
    rewrite getProof_fold, constructor_layers, Hfold.
    now rewrite equals_refl.
Qed.

(** C2. Leaf domain separation: layer 0 of the built tree has one hash
    per input identity, in input order, duplicates included, and the
    hash at position [i] is the keccak-256 digest of the byte 0x00
    followed by the bytes of the [i]-th identity. *)
Theorem leaf_hash_domain_separation (data : list string) (i : nat)
        (s : string) :
  nth_error data i = Some s ->
  nodeHash (BufferOps.from s) = keccak_256_digest (x00 :: BufferOps.from s)
  /\ exists layer0 : list Buffer,
       nth_error (layers (constructor data)) 0 = Some layer0
       /\ length layer0 = length data
       /\ nth_error layer0 i
          = Some (keccak_256_digest (x00 :: BufferOps.from s)).
Proof.
  intros Hs. split; [reflexivity |].
  exists (map nodeHash (map BufferOps.from data)).
  split; [| split].
  - rewrite constructor_layers. apply while_loop_head.
    destruct data; [now rewrite nth_error_nil in Hs | discriminate].
  - now rewrite !length_map.
  - now apply nth_error_hashes.
Qed.

(** C3. Internal-node combination: for two present hashes the
    combination is the keccak-256 digest of the byte 0x01, then the
    smaller, then the larger of the two in byte-wise lexicographic order;
    hence it does not depend on the order of its arguments. *)
Theorem internalHash_min_max (a b : Buffer) :
  internalHash a (Some b)
  = keccak_256_digest (x01 :: Lex.min a b ++ Lex.max a b)
  /\ internalHash a (Some b) = internalHash b (Some a).
Proof.
  split; [| apply internalHash_comm].
  unfold internalHash, BufferOps.sort_pair, Lex.min, Lex.max.
  rewrite compare_leb.
  destruct (Lex.leb a b); reflexivity.
Qed.

(** C4. Odd-node carry-forward: in the built tree, a layer [k] of odd
    length greater than 1 is followed by a layer of
    [ceil(length / 2)] hashes whose last hash is the last hash of
    layer [k], unchanged. *)
Theorem odd_layer_carries_last (data : list string) (k : nat)
        (layer : list Buffer) :
  nth_error (layers (constructor data)) k = Some layer ->
  Nat.odd (length layer) = true ->
  1 < length layer ->
  exists (next : list Buffer) (last : Buffer),
    nth_error (layers (constructor data)) (S k) = Some next
    /\ length next = (length layer + 1) / 2
    /\ JS.last_elem layer = Some last
    /\ JS.last_elem next = Some last.
Proof.
  intros Hk Hodd Hlen.
  rewrite constructor_layers in *.
  pose proof (@layers_succ _ _ k layer (le_n _) Hk Hlen) as Hnext.
  destruct (@last_elem_Some _ layer) as [v Hv];
    [destruct layer; [simpl in Hlen; lia | discriminate] |].
  exists (pair_up layer), v.
  split; [exact Hnext | split; [| split; [exact Hv |]]].
  - pose proof (pair_up_length layer) as Hp.
    assert (Hm : length layer mod 2 = 1).
    { apply Nat.odd_spec in Hodd. destruct Hodd as [j Hj].
      rewrite Hj. replace (2 * j + 1) with (1 + j * 2) by lia.
      now rewrite Nat.Div0.mod_add. }
    apply (Nat.div_unique _ 2 _ 0); lia.
  - rewrite (@pair_up_last_odd _ layer (le_n _) Hodd). exact Hv.
Qed.

(** C5. Layer count: a tree built from [N >= 1] identities has
    [ceil(log2 N) + 1] layers, which is 1 layer when [N = 1]; its last
    layer holds one hash, and that hash is the root. *)
Theorem layer_count (data : list string) :
  1 <= length data ->
  length (layers (constructor data)) = Nat.log2_up (length data) + 1
  /\ (length data = 1 -> length (layers (constructor data)) = 1)
  /\ exists root : Buffer,
       JS.last_elem (layers (constructor data)) = Some [root]
       /\ getRoot (constructor data) = Ok (Some root).
Proof.
  intros HN.
  assert (Hcount : length (layers (constructor data))
                   = Nat.log2_up (length data) + 1).
  { rewrite constructor_layers, (@while_loop_length _ _ (le_n _)).
    - now rewrite !length_map.
    - now rewrite !length_map. }
  split; [exact Hcount | split].
  - intros E. rewrite Hcount, E. reflexivity.
  - destruct (@nth_error_in_range _ data 0) as [s Hs]; [lia |].
    pose proof (nth_error_hashes data _ s Hs) as Hh.
    destruct (@layers_round_trip _ _ 0 _ (le_n _) Hh) as (r & Hlast & _);
      [reflexivity |].
    exists r. rewrite constructor_layers. split; [exact Hlast |].
    apply getRoot_of_last. now rewrite constructor_layers.
Qed.

(** C6, as the code has it. [getProof] has no range check and no
    InvalidIndex failure: for every index, inside [0, N) or not, it
    returns a list with at most one entry per layer, each entry being
    [undefined] or a hash stored in the tree. *)
Theorem getProof_total_no_range_check (t : MerkleTree) (idx : Z) :
  length (getProof t idx) <= length (layers t)
  /\ Forall (stored_or_undefined (layers t)) (getProof t idx).
Proof.
  rewrite getProof_fold.
  destruct (proof_steps_entries (layers t) (layers t) [] idx
                                (incl_refl _) (Forall_nil _)) as [HF HL].
  split; [exact HL | exact HF].
Qed.

(** C7. Verifier mismatch behaviour: for a leaf of the tree (by index
    for [verifyProof] and [verifyRoot], by identity string for
    [verifyClaim]), any proof of any length and any root, the verifier
    returns a boolean, never an error. For a proof of sibling hashes the
    boolean is [true] exactly when the root recomputed as the
    specification words it, from [Hash(0x00 || leaf bytes)] with
    [Hash(0x01 || min || max)] over the siblings in order, is the root
    byte for byte, and [false] otherwise. For any array of entries,
    [undefined] ones included, it is [true] exactly when the left fold of
    [internalHash] over the entries, from the digest of 0x00 and the leaf
    bytes, is the root. *)
Theorem verify_true_iff_recomputed_root
        (t : MerkleTree) (idx : Z) (leaf : Buffer) (item : string)
        (siblings : list Buffer) (entries : list (option Buffer))
        (root own_root : Buffer) :
  (JS.index (leafs t) idx = Some leaf ->
   (exists b : bool,
       verifyProof t idx (map Some siblings) root = Ok b
       /\ verifyRoot t idx (map Some siblings) root = Ok b
       /\ (b = true <-> spec_recompute (spec_leaf leaf) siblings = root)
       /\ (b = false <-> spec_recompute (spec_leaf leaf) siblings <> root))
   /\ (exists b : bool,
          verifyProof t idx entries root = Ok b
          /\ verifyRoot t idx entries root = Ok b
          /\ (b = true
              <-> fold_left internalHash entries
                            (keccak_256_digest (x00 :: leaf)) = root)
          /\ (b = false
              <-> fold_left internalHash entries
                            (keccak_256_digest (x00 :: leaf)) <> root)))
  /\ (getRoot t = Ok (Some own_root) ->
      (exists b : bool,
          verifyClaim t item (map Some siblings) = Ok b
          /\ (b = true
              <-> spec_recompute (spec_leaf (BufferOps.from item)) siblings
                  = own_root)
          /\ (b = false
              <-> spec_recompute (spec_leaf (BufferOps.from item)) siblings
                  <> own_root))
      /\ (exists b : bool,
             verifyClaim t item entries = Ok b
             /\ (b = true
                 <-> fold_left internalHash entries
                               (keccak_256_digest
                                  (x00 :: BufferOps.from item)) = own_root)
             /\ (b = false
                 <-> fold_left internalHash entries
                               (keccak_256_digest
                                  (x00 :: BufferOps.from item))
                     <> own_root))).
Proof.
  split.
  - intros Hleaf. split.
    + exists (BufferOps.equals
                (fold_left internalHash (map Some siblings)
                           (keccak_256_digest (x00 :: leaf))) root).
      unfold verifyRoot, verifyProof. rewrite Hleaf.
      split; [reflexivity | split; [reflexivity |]].
      assert (H : BufferOps.equals
                    (fold_left internalHash (map Some siblings)
                               (keccak_256_digest (x00 :: leaf))) root = true
                  <-> spec_recompute (spec_leaf leaf) siblings = root).
      { rewrite equals_true_iff, fold_internalHash_spec_recompute.
        reflexivity. }
      split; [exact H | now apply bool_false_iff_not].
    + exists (BufferOps.equals
                (fold_left internalHash entries
                           (keccak_256_digest (x00 :: leaf))) root).
      unfold verifyRoot, verifyProof. rewrite Hleaf.
      split; [reflexivity | split; [reflexivity | split]];
        [apply equals_true_iff | apply equals_false_iff].
  - intros Hroot. split.
    + exists (BufferOps.equals
                (fold_left internalHash (map Some siblings)
                           (keccak_256_digest (x00 :: BufferOps.from item)))
                own_root).
      unfold verifyClaim. rewrite Hroot.
      split; [reflexivity |].
      assert (H : BufferOps.equals
                    (fold_left internalHash (map Some siblings)
                               (keccak_256_digest
                                  (x00 :: BufferOps.from item)))
                    own_root = true
                  <-> spec_recompute (spec_leaf (BufferOps.from item))
                                     siblings = own_root).
      { rewrite equals_true_iff, fold_internalHash_spec_recompute.
        reflexivity. }
      split; [exact H | now apply bool_false_iff_not].
    + exists (BufferOps.equals
                (fold_left internalHash entries
                           (keccak_256_digest (x00 :: BufferOps.from item)))
                own_root).
      unfold verifyClaim. rewrite Hroot.
      split; [reflexivity | split];
        [apply equals_true_iff | apply equals_false_iff].
Qed.

(** C8, as the code has it. [verifyClaim] takes the identity string and
    the proof only: it hashes the identity into a leaf and decides
    against the root of the tree it is called on, which must have been
    built. A root supplied by the caller is taken by the index-based
    verifiers [verifyProof] and [verifyRoot]. *)
Theorem verifyClaim_decides_against_own_root
        (t : MerkleTree) (item : string) (proof : list (option Buffer))
        (own_root : Buffer) :
  getRoot t = Ok (Some own_root) ->
  verifyClaim t item proof
  = Ok (BufferOps.equals
          (fold_proof (nodeHash (BufferOps.from item)) proof) own_root)
  /\ forall (idx : Z) (leaf supplied : Buffer),
       JS.index (leafs t) idx = Some leaf ->
       verifyProof t idx proof supplied
       = Ok (BufferOps.equals (fold_proof (nodeHash leaf) proof) supplied)
       /\ verifyRoot t idx proof supplied
          = Ok (BufferOps.equals (fold_proof (nodeHash leaf) proof)
                                 supplied).
Proof.
  intros Hroot. split.
  - unfold verifyClaim. rewrite Hroot. reflexivity.
  - intros idx leaf supplied Hleaf.
    unfold verifyRoot, verifyProof. rewrite Hleaf. split; reflexivity.
Qed.

(** C9. Empty allowlist: the tree built from zero identities has no
    layer and no root, [getRoot] fails, and every verifier call on it
    fails as well, so no call answers [true]. *)
Theorem empty_allowlist_fails_closed :
  layers (constructor []) = []
  /\ getRoot (constructor []) = Throw TypeError
  /\ (forall (idx : Z) (proof : list (option Buffer)) (root : Buffer),
         verifyProof (constructor []) idx proof root = Throw TypeError
         /\ verifyRoot (constructor []) idx proof root = Throw TypeError)
  /\ (forall (item : string) (proof : list (option Buffer)),
         verifyClaim (constructor []) item proof = Throw TypeError).
Proof.
  assert (Hl : layers (constructor []) = []).
  { rewrite constructor_layers. cbn [map]. now simp while_loop. }
  assert (Hr : getRoot (constructor []) = Throw TypeError).
  { unfold getRoot. rewrite Hl. reflexivity. }
  split; [exact Hl | split; [exact Hr | split]].
  - intros idx proof root.
    unfold verifyRoot, verifyProof. rewrite constructor_leafs. cbn [map].
    unfold JS.index. rewrite nth_error_nil.
    destruct (idx <? 0)%Z; split; reflexivity.
  - intros item proof. unfold verifyClaim. rewrite Hr. reflexivity.
Qed.

(** C10. Stored leaves and layer 0: for an index [i] inside the input
    list, [leafs[i]] is the raw bytes of the [i]-th identity and
    [layers[0][i]] is [nodeHash(leafs[i])]; [verifyProof] hashes
    [leafs[i]] again and does not read the [layers] field, so its answer
    is the same whatever [layers] holds. *)
Theorem leafs_layer0_and_verifier (data : list string) (i : nat)
        (s : string) :
  nth_error data i = Some s ->
  nth_error (leafs (constructor data)) i = Some (BufferOps.from s)
  /\ (exists layer0 : list Buffer,
         nth_error (layers (constructor data)) 0 = Some layer0
         /\ nth_error layer0 i = Some (nodeHash (BufferOps.from s)))
  /\ forall (other_layers : list (list Buffer))
            (proof : list (option Buffer)) (root : Buffer),
       verifyProof
         (mkMerkleTree data (leafs (constructor data)) other_layers)
         (Z.of_nat i) proof root
       = Ok (BufferOps.equals
               (fold_proof (nodeHash (BufferOps.from s)) proof) root).
Proof.
  intros Hs.
  assert (Hleaf : nth_error (leafs (constructor data)) i
                  = Some (BufferOps.from s)).
  { rewrite constructor_leafs, nth_error_map, Hs. reflexivity. }
  split; [exact Hleaf | split].
  - exists (map nodeHash (map BufferOps.from data)). split.
    + rewrite constructor_layers. apply while_loop_head.
      destruct data; [now rewrite nth_error_nil in Hs | discriminate].
    + now apply nth_error_hashes.
  - intros other_layers proof root.
    unfold verifyProof. cbn [leafs].
    change (buildLeaves data) with (leafs (constructor data)).
    rewrite index_of_nat, Hleaf. reflexivity.
Qed.

(** ** Further properties of the class *)

Definition defined (e : option Buffer) : Prop := e <> None.

Lemma proof_step_layer_defined (l : list Buffer) (i : nat) (h : Buffer)
      (acc : list (option Buffer)) :
  nth_error l i = Some h ->
  (Z.of_nat i < 2 ^ 31)%Z ->
  exists p0,
    proof_step (acc, Z.of_nat i) l = (acc ++ p0, Z.of_nat (i / 2))
    /\ Forall defined p0
    /\ length p0 <= 1.
Proof.
  intros Hh Hlt.
  assert (Hi : i < length l) by (apply nth_error_Some; congruence).
  unfold proof_step. rewrite floor_half_of_nat.
  destruct (Nat.Even_or_Odd i) as [[j ->]|[j ->]].
  - rewrite bitxor_1_even by lia.
    destruct (Z.ltb_spec (Z.of_nat (2 * j + 1)) (Z.of_nat (length l)))
      as [Hs|Hs].
    + exists [JS.index l (Z.of_nat (2 * j + 1))].
      split; [reflexivity | split; [| simpl; lia]].
      constructor; [| constructor].
      rewrite index_of_nat. unfold defined.
      apply nth_error_Some. lia.
    + exists []. split; [now rewrite app_nil_r | split; [constructor |]].
      simpl. lia.
  - rewrite bitxor_1_odd by lia.
    destruct (Z.ltb_spec (Z.of_nat (2 * j)) (Z.of_nat (length l)))
      as [Hs|Hs]; [| lia].
    exists [JS.index l (Z.of_nat (2 * j))].
    split; [reflexivity | split; [| simpl; lia]].
    constructor; [| constructor].
    rewrite index_of_nat. unfold defined.
    apply nth_error_Some. lia.
Qed.

Lemma layers_proof_defined :
  forall (n : nat) (hashes : list Buffer) (i : nat) (h : Buffer),
    length hashes <= n ->
    nth_error hashes i = Some h ->
    (Z.of_nat i < 2 ^ 31)%Z ->
    Forall defined
           (fst (fold_left proof_step (while_loop hashes [])
                           ([], Z.of_nat i)))
    /\ S (length (fst (fold_left proof_step (while_loop hashes [])
                                 ([], Z.of_nat i))))
       <= length (while_loop hashes []).
Proof.
  induction n as [|n IH]; intros hashes i h Hn Hh Hlt.
  - destruct hashes; [| simpl in Hn; lia].
    rewrite nth_error_nil in Hh. discriminate.
  - destruct hashes as [|a [|b t]].
    + rewrite nth_error_nil in Hh. discriminate.
    + destruct i as [|i];
        [| cbn [nth_error] in Hh; rewrite nth_error_nil in Hh; discriminate].
      simp while_loop. cbn [app fold_left]. unfold proof_step.
      replace (JS.bitxor (Z.of_nat 0) 1) with 1%Z by reflexivity.
      cbn. split; [constructor | lia].
    + rewrite while_loop_cons. cbn [fold_left].
      destruct (proof_step_layer_defined (a :: b :: t) i h [] Hh Hlt)
        as (p0 & Hstep & Hdef & Hlen).
      destruct (proof_step_layer (a :: b :: t) i h [] Hh Hlt)
        as (p1 & Hstep1 & Hnext).
      assert (p1 = p0) by (rewrite Hstep in Hstep1; now injection Hstep1).
      subst p1.
      rewrite Hstep, proof_steps_acc. cbn [app].
      pose proof (next_layer_shorter a b t) as Hs.
      rewrite next_layer_pair_up in Hs.
      destruct (IH (pair_up (a :: b :: t)) (i / 2) (fold_proof h p0))
        as (HF & HL); [lia | exact Hnext | |].
      { pose proof (Nat.Div0.div_le_upper_bound i 2 i) as Hd.
        assert (i / 2 <= i) by (apply Hd; lia).
        apply Z.le_lt_trans with (Z.of_nat i); [| exact Hlt].
        now apply Nat2Z.inj_le. }
      split.
      * apply Forall_app. split; assumption.
      * rewrite length_app. cbn [length]. lia.
Qed.

(** X1. For an index inside the list (and below [2^31]), the proof that
    [getProof] returns holds hashes only, no [undefined], and at most
    [ceil(log2 N)] of them: one per layer below the root at most. *)
Theorem getProof_in_range_defined_bounded (data : list string) (i : Z) :
  (0 <= i < Z.of_nat (length data))%Z ->
  (i < 2 ^ 31)%Z ->
  Forall defined (getProof (constructor data) i)
  /\ length (getProof (constructor data) i) <= Nat.log2_up (length data).
Proof.
  intros Hi H31.
  remember (Z.to_nat i) as k eqn:Ek.
  assert (E : i = Z.of_nat k) by lia. subst i. clear Ek.
  destruct (@nth_error_in_range _ data k) as [s Hs]; [lia |].
  pose proof (nth_error_hashes data _ s Hs) as Hh.
  destruct (layers_proof_defined _ _ k _ (le_n _) Hh H31) as [HF HL].
  rewrite getProof_fold, constructor_layers.
  split; [exact HF |].
  rewrite (while_loop_length _ _ (le_n _)) in HL.
  - rewrite !length_map in HL. lia.
  - rewrite !length_map. lia.
Qed.

Lemma verifyProof_root_of_getProof (data : list string) (i : nat)
      (item : string) :
  nth_error data i = Some item ->
  (Z.of_nat i < 2 ^ 31)%Z ->
  exists r : Buffer,
    getRoot (constructor data) = Ok (Some r)
    /\ fold_proof (nodeHash (BufferOps.from item))
                  (getProof (constructor data) (Z.of_nat i)) = r.
Proof.
  intros Hs H31.
  pose proof (nth_error_hashes data _ item Hs) as Hh.
  destruct (layers_round_trip _ _ i _ (le_n _) Hh H31)
    as (r & Hlast & Hfold).
  exists r. split.
  - apply getRoot_of_last. now rewrite constructor_layers.
  - now rewrite getProof_fold, constructor_layers.
Qed.

Lemma getProof_verifyClaim_round_trip_aux (data : list string) (i : nat)
      (item : string) :
  nth_error data i = Some item ->
  (Z.of_nat i < 2 ^ 31)%Z ->
  verifyClaim (constructor data) item
              (getProof (constructor data) (Z.of_nat i)) = Ok true.
Proof.
  intros Hs H31.
  pose proof (nth_error_hashes data _ item Hs) as Hh.
  destruct (layers_round_trip _ _ i _ (le_n _) Hh H31)
    as (r & Hlast & Hfold).
  unfold verifyClaim.
  rewrite (getRoot_of_last (constructor data) r)
    by (now rewrite constructor_layers).
  cbn [JS.bind].
  rewrite getProof_fold, constructor_layers, Hfold.
  now rewrite equals_refl.
Qed.

(** X2. Membership round trip by identity: for an identity that stands
    at index [i] of the list, [verifyClaim] called with the identity
    string and the proof of [getProof(i)] answers [true]. *)
Theorem getProof_verifyClaim_round_trip (data : list string) (i : nat)
        (item : string) :
  nth_error data i = Some item ->
  (Z.of_nat i < 2 ^ 31)%Z ->
  verifyClaim (constructor data) item
              (getProof (constructor data) (Z.of_nat i)) = Ok true.
Proof.
  intros Hs H31.
  destruct (verifyProof_root_of_getProof data i item Hs H31)
    as (r & Hroot & Hfold).
  unfold verifyClaim. rewrite Hroot. cbn [JS.bind].
  rewrite Hfold. now rewrite equals_refl.
Qed.

Lemma ceil_half_div (N m P : nat) :
  2 * m = N + N mod 2 -> 1 <= N -> 1 <= P ->
  (m + P - 1) / P = (N + 2 * P - 1) / (2 * P).
Proof.
  intros Hm HN HP.
  pose proof (Nat.mod_upper_bound N 2) as Hr.
  rewrite <- Nat.Div0.div_div.
  replace ((N + 2 * P - 1) / 2) with (m + P - 1); [reflexivity |].
  apply (Nat.div_unique _ 2 _ (1 - N mod 2)); lia.
Qed.

Lemma layer_sizes :
  forall (n : nat) (hashes : list Buffer) (k : nat) (l : list Buffer),
    length hashes <= n ->
    nth_error (while_loop hashes []) k = Some l ->
    length l = (length hashes + 2 ^ k - 1) / 2 ^ k.
Proof.
  induction n as [|n IH]; intros hashes k l Hn Hk.
  - destruct hashes; [| simpl in Hn; lia].
    simp while_loop in Hk. rewrite nth_error_nil in Hk. discriminate.
  - destruct hashes as [|a [|b t]].
    + simp while_loop in Hk. rewrite nth_error_nil in Hk. discriminate.
    + simp while_loop in Hk. cbn [app] in Hk.
      destruct k as [|k]; cbn [nth_error] in Hk.
      * injection Hk as <-. reflexivity.
      * rewrite nth_error_nil in Hk. discriminate.
    + rewrite while_loop_cons in Hk.
      destruct k as [|k]; cbn [nth_error] in Hk.
      * injection Hk as <-. cbn [Nat.pow].
        rewrite Nat.div_1_r. lia.
      * pose proof (next_layer_shorter a b t) as Hs.
        rewrite next_layer_pair_up in Hs.
        pose proof (pair_up_length (a :: b :: t)) as Hp.
        rewrite (IH (pair_up (a :: b :: t)) k l); [| lia | exact Hk].
        rewrite Nat.pow_succ_r'.
        apply ceil_half_div; [exact Hp | simpl; lia |].
        pose proof (Nat.pow_nonzero 2 k). lia.
Qed.

(** X3. Layer sizes: layer [k] of the tree built from [N] identities
    holds [ceil(N / 2^k)] hashes. *)
Theorem layer_k_length (data : list string) (k : nat) (layer : list Buffer) :
  nth_error (layers (constructor data)) k = Some layer ->
  length layer = (length data + 2 ^ k - 1) / 2 ^ k.
Proof.
  intros Hk. rewrite constructor_layers in Hk.
  rewrite (layer_sizes _ _ k layer (le_n _) Hk).
  now rewrite !length_map.
Qed.

Lemma pair_up_app_even :
  forall (n : nat) (pre l : list Buffer),
    length pre <= n ->
    Nat.even (length pre) = true ->
    pair_up (pre ++ l) = pair_up pre ++ pair_up l.
Proof.
  induction n as [|n IH]; intros pre l Hn Hev.
  - destruct pre; [reflexivity | simpl in Hn; lia].
  - destruct pre as [|a [|b t]]; [reflexivity | discriminate |].
    cbn [app pair_up]. f_equal.
    apply IH; [simpl in Hn; lia |].
    cbn [length] in Hev. now rewrite Nat.even_succ_succ in Hev.
Qed.

Lemma while_loop_not_nil (hashes : list Buffer) :
  hashes <> [] -> while_loop hashes [] <> [].
Proof.
  intros Hne E. pose proof (while_loop_head hashes Hne) as H.
  rewrite E in H. discriminate.
Qed.

Lemma last_layer_of_pairing (hashes : list Buffer) :
  2 <= length hashes ->
  JS.last_elem (while_loop hashes [])
  = JS.last_elem (while_loop (pair_up hashes) []).
Proof.
  intros Hlen.
  destruct hashes as [|a [|b t]]; [simpl in Hlen; lia | simpl in Hlen; lia |].
  rewrite while_loop_cons.
  destruct (@last_elem_Some _ (while_loop (pair_up (a :: b :: t)) []))
    as [v Hv].
  { apply while_loop_not_nil, pair_up_not_nil. discriminate. }
  rewrite Hv. now apply last_elem_cons.
Qed.

(** X4. Order inside a pair does not matter: exchanging the two
    identities of a pair of layer 0 (positions [2j] and [2j + 1]) leaves
    the root unchanged. *)
Theorem swap_pair_same_root (pre post : list string) (x y : string) :
  Nat.even (length pre) = true ->
  getRoot (constructor (pre ++ x :: y :: post))
  = getRoot (constructor (pre ++ y :: x :: post)).
Proof.
  intros Hev.
  unfold getRoot. rewrite !constructor_layers.
  rewrite !map_app. cbn [map].
  set (hpre := map nodeHash (map BufferOps.from pre)).
  set (hpost := map nodeHash (map BufferOps.from post)).
  assert (Hpre : Nat.even (length hpre) = true)
    by (unfold hpre; now rewrite !length_map).
  rewrite (last_layer_of_pairing
             (hpre ++ nodeHash (BufferOps.from x)
                   :: nodeHash (BufferOps.from y) :: hpost))
    by (rewrite length_app; cbn [length]; lia).
  rewrite (last_layer_of_pairing
             (hpre ++ nodeHash (BufferOps.from y)
                   :: nodeHash (BufferOps.from x) :: hpost))
    by (rewrite length_app; cbn [length]; lia).
  rewrite (pair_up_app_even (length hpre) hpre _ (le_n _) Hpre).
  rewrite (pair_up_app_even (length hpre) hpre _ (le_n _) Hpre).
  cbn [pair_up]. now rewrite internalHash_comm.
Qed.

Lemma bitxor_1_negative (idx : Z) :
  (- 2 ^ 31 <= idx < 0)%Z -> (JS.bitxor idx 1 < 0)%Z.
Proof.
  intros H. unfold JS.bitxor.
  rewrite (toInt32_small idx) by lia.
  rewrite (toInt32_small 1) by lia.
  destruct (Z.lt_ge_cases (Z.lxor idx 1) 0) as [Hneg|Hpos]; [exact Hneg |].
  apply Z.lxor_nonneg in Hpos. lia.
Qed.

Lemma proof_steps_negative (ls : list (list Buffer)) :
  forall (acc : list (option Buffer)) (idx : Z),
    (- 2 ^ 31 <= idx < 0)%Z ->
    fst (fold_left proof_step ls (acc, idx))
    = acc ++ repeat None (length ls).
Proof.
  induction ls as [|l ls IH]; intros acc idx Hidx.
  - cbn. now rewrite app_nil_r.
  - cbn [fold_left]. unfold proof_step at 2.
    pose proof (bitxor_1_negative idx Hidx) as Hneg.
    destruct (Z.ltb_spec (JS.bitxor idx 1) (Z.of_nat (length l)))
      as [_|Hge]; [| lia].
    unfold JS.index.
    destruct (Z.ltb_spec (JS.bitxor idx 1) 0) as [_|Hge]; [| lia].
    rewrite IH.
    + rewrite <- app_assoc. reflexivity.
    + unfold JS.floor_half.
      assert (idx / 2 < 0)%Z by (apply Z.div_lt_upper_bound; lia).
      assert (- 2 ^ 31 <= idx / 2)%Z
        by (apply Z.div_le_lower_bound; lia).
      lia.
Qed.

Lemma fold_proof_undefined (h : Buffer) (n : nat) :
  fold_proof h (repeat None n) = h.
Proof. induction n as [|n IH]; [reflexivity | exact IH]. Qed.

(** X5. An index between [-2^31] and [-1], such as the -1 of
    [indexOf]: [getProof] returns one [undefined] per layer, and a
    verifier skips these entries, so [verifyProof] with that proof
    compares the bare leaf hash with the root. Below [-2^31] the 32-bit
    [idx ^ 1] wraps and the entries differ. *)
Theorem getProof_negative_index (t : MerkleTree) (idx i : Z)
        (leaf root : Buffer) :
  (- 2 ^ 31 <= idx < 0)%Z ->
  JS.index (leafs t) i = Some leaf ->
  getProof t idx = repeat None (length (layers t))
  /\ verifyProof t i (getProof t idx) root
     = Ok (BufferOps.equals (nodeHash leaf) root).
Proof.
  intros Hidx Hleaf.
  assert (E : getProof t idx = repeat None (length (layers t))).
  { rewrite getProof_fold. now rewrite proof_steps_negative. }
  split; [exact E |].
  unfold verifyProof. rewrite Hleaf, E. cbn [JS.spread JS.bind].
  now rewrite fold_proof_undefined.
Qed.

(** *** Hexadecimal text and number arrays *)

Lemma hex_digit_inj (n m : N) :
  (n < 16)%N -> (m < 16)%N ->
  BufferOps.hex_digit n = BufferOps.hex_digit m -> n = m.
Proof.
  intros Hn Hm. unfold BufferOps.hex_digit.
  rewrite <- (N2Nat.id n), <- (N2Nat.id m).
  assert (Ha : N.to_nat n < 16) by lia.
  assert (Hb : N.to_nat m < 16) by lia.
  rewrite !Nat2N.id.
  generalize dependent (N.to_nat m). generalize dependent (N.to_nat n).
  clear n m Hn Hm. intros a Ha b Hb.
  do 16 (destruct a as [|a]; [do 16 (destruct b as [|b];
    [first [reflexivity | discriminate] |]); lia |]).
  lia.
Qed.

Lemma byte_of_digits (x y : byte) :
  (Byte.to_N x / 16 = Byte.to_N y / 16)%N ->
  (Byte.to_N x mod 16 = Byte.to_N y mod 16)%N -> x = y.
Proof.
  intros Hd Hm. apply byte_to_N_inj.
  rewrite (N.Div0.div_mod (Byte.to_N x) 16), (N.Div0.div_mod (Byte.to_N y) 16).
  now rewrite Hd, Hm.
Qed.

Lemma toString_hex_inj (a b : Buffer) :
  BufferOps.toString_hex a = BufferOps.toString_hex b -> a = b.
Proof.
  revert b. induction a as [|x a IH]; intros [|y b] E;
    cbn [BufferOps.toString_hex] in E; try discriminate; [reflexivity |].
  injection E as E1 E2 E3.
  pose proof (Byte.to_N_bounded x) as Bx.
  pose proof (Byte.to_N_bounded y) as By.
  apply hex_digit_inj in E1;
    [| apply N.Div0.div_lt_upper_bound; lia
     | apply N.Div0.div_lt_upper_bound; lia].
  apply hex_digit_inj in E2;
    [| apply N.mod_upper_bound; lia | apply N.mod_upper_bound; lia].
  f_equal; [now apply byte_of_digits | now apply IH].
Qed.

Lemma toString_hex_length (b : Buffer) :
  String.length (BufferOps.toString_hex b) = 2 * length b.
Proof.
  induction b as [|x b IH]; [reflexivity |].
  cbn [BufferOps.toString_hex String.length length]. lia.
Qed.

Lemma from_array_values (b : Buffer) :
  BufferOps.from_array (BufferOps.values b) = b.
Proof.
  induction b as [|x b IH]; [reflexivity |].
  unfold BufferOps.values, BufferOps.from_array in *.
  cbn [map]. rewrite IH. f_equal.
  pose proof (Byte.to_N_bounded x) as Bx.
  rewrite Z.mod_small by lia.
  now rewrite N2Z.id, Byte.of_to_N.
Qed.

Lemma values_range (b : Buffer) :
  Forall (fun v => 0 <= v <= 255)%Z (BufferOps.values b).
Proof.
  induction b as [|x b IH]; [constructor |].
  constructor; [| exact IH].
  pose proof (Byte.to_N_bounded x). lia.
Qed.

Lemma defined_entries (p : list (option Buffer)) :
  Forall defined p -> exists bs, p = map Some bs.
Proof.
  induction 1 as [|e p He _ [bs ->]]; [now exists [] |].
  destruct e as [b|]; [| now contradiction He].
  now exists (b :: bs).
Qed.

Lemma traverse_method_of {B : Type} (f : Buffer -> B) (bs : list Buffer) :
  JS.traverse (JS.method_of f) (map Some bs) = Ok (map f bs).
Proof.
  induction bs as [|b bs IH]; [reflexivity |].
  cbn [map JS.traverse JS.method_of]. now rewrite IH.
Qed.

Lemma traverse_undefined_first {B : Type} (f : Buffer -> B)
      (p : list (option Buffer)) :
  JS.traverse (JS.method_of f) (None :: p) = Throw TypeError.
Proof. reflexivity. Qed.

(** X6. The hexadecimal root loses nothing: when [getHexRoot] gives the
    same text on two trees, the two trees have the same root; the text has
    two characters per byte of the root. *)
Theorem getHexRoot_lossless (t1 t2 : MerkleTree) (s : string) :
  getHexRoot t1 = Ok s ->
  getHexRoot t2 = Ok s ->
  exists r : Buffer,
    getRoot t1 = Ok (Some r)
    /\ getRoot t2 = Ok (Some r)
    /\ String.length s = 2 * length r.
Proof.
  unfold getHexRoot. intros H1 H2.
  destruct (getRoot t1) as [[r1|]|e1]; cbn in H1; try discriminate.
  destruct (getRoot t2) as [[r2|]|e2]; cbn in H2; try discriminate.
  injection H1 as <-. injection H2 as H2.
  apply toString_hex_inj in H2. subst r2.
  exists r1. split; [reflexivity | split; [reflexivity |]].
  apply toString_hex_length.
Qed.

(** X7. For an index inside the list (and below [2^31]), [getHexProof]
    and [getProofArray] return without error, entry by entry the
    hexadecimal text and the byte values of the proof of [getProof]; the
    number arrays give the proof back through [Buffer.from]. *)
Theorem getHexProof_getProofArray_in_range (data : list string) (i : Z) :
  (0 <= i < Z.of_nat (length data))%Z ->
  (i < 2 ^ 31)%Z ->
  exists bs : list Buffer,
    getProof (constructor data) i = map Some bs
    /\ getHexProof (constructor data) i
       = Ok (map BufferOps.toString_hex bs)
    /\ getProofArray (constructor data) i = Ok (map BufferOps.values bs)
    /\ map BufferOps.from_array (map BufferOps.values bs) = bs.
Proof.
  intros Hi H31.
  destruct (getProof_in_range_defined_bounded data i Hi H31) as [HF _].
  destruct (defined_entries _ HF) as [bs Hbs].
  exists bs. unfold getHexProof, getProofArray. rewrite Hbs.
  split; [reflexivity |].
  rewrite !traverse_method_of.
  split; [reflexivity | split; [reflexivity |]].
  rewrite map_map. rewrite <- (map_id bs) at 2.
  apply map_ext. intros b. apply from_array_values.
Qed.

(** X8. Where the text and array accessors throw. On a tree without
    layers, as built from no identity, [getHexRoot] and [getRootArray]
    throw while [getHexProof] and [getProofArray] return the empty array
    for any index. On a tree with a layer, [getHexProof] and
    [getProofArray] throw on an index between [-2^31] and [-1], whose
    proof starts with [undefined]. *)
Theorem hex_and_array_accessors_throw (t : MerkleTree) (idx : Z) :
  (layers t = [] ->
   getHexRoot t = Throw TypeError
   /\ getRootArray t = Throw TypeError
   /\ getHexProof t idx = Ok []
   /\ getProofArray t idx = Ok [])
  /\ (layers t <> [] ->
      (- 2 ^ 31 <= idx < 0)%Z ->
      getHexProof t idx = Throw TypeError
      /\ getProofArray t idx = Throw TypeError).
Proof.
  unfold getHexProof, getProofArray, getHexRoot, getRootArray, getRoot.
  rewrite getProof_fold. split.
  - intros E. rewrite E. repeat split; reflexivity.
  - intros Hne Hidx. rewrite proof_steps_negative by exact Hidx.
    destruct (layers t) as [|l ls]; [congruence |].
    split; reflexivity.
Qed.

(** X9. [getRootArray] round trip: on a tree with a root, the array holds
    the root byte by byte, each number between 0 and 255, and
    [Buffer.from] of the array is the root again. *)
Theorem getRootArray_round_trip (t : MerkleTree) (r : Buffer) :
  getRoot t = Ok (Some r) ->
  exists vs : list Z,
    getRootArray t = Ok vs
    /\ length vs = length r
    /\ Forall (fun v => 0 <= v <= 255)%Z vs
    /\ BufferOps.from_array vs = r.
Proof.
  intros Hr. exists (BufferOps.values r).
  unfold getRootArray. rewrite Hr.
  split; [reflexivity | split; [| split]].
  - unfold BufferOps.values. now rewrite length_map.
  - apply values_range.
  - apply from_array_values.
Qed.

(** *** The hook's [proofMemo] *)

(** What the [reduce] stores under the label of one allowlist. *)
Definition merkle_of (publicKey : string) (al : AllowList) : Merkle :=
  let tree := constructor (string_list al) in
  let leafIndex := JS.indexOf (string_list al) publicKey in
  mkMerkle tree (if (leafIndex =? -1)%Z then [] else getProof tree leafIndex).

Definition has_label (label : string) (al : AllowList) : bool :=
  String.eqb (groupLabel al) label.

Definition label_or_default (label : option string) : string :=
  match label with
  | Some l => l
  | None => "default"%string
  end.

Lemma find_app_last {A : Type} (f : A -> bool) (l : list A) (x : A) :
  find f (l ++ [x])
  = match find f l with
    | Some y => Some y
    | None => if f x then Some x else None
    end.
Proof.
  induction l as [|y l IH]; [reflexivity |].
  cbn [app find]. destruct (f y); [reflexivity | exact IH].
Qed.

(** [merkles[label]] is the entry of the last allowlist with that label. *)
Lemma get_merkles_fold (publicKey label : string) (als : list AllowList) :
  forall obj : JS.object Merkle,
    JS.get (fold_left (merkles_step publicKey) als obj) label
    = match find (has_label label) (rev als) with
      | Some al => Some (merkle_of publicKey al)
      | None => JS.get obj label
      end.
Proof.
  induction als as [|a als IH]; intros obj; [reflexivity |].
  cbn [fold_left rev]. rewrite IH, find_app_last.
  destruct (find (has_label label) (rev als)); [reflexivity |].
  unfold merkles_step, JS.assign, has_label. cbn [JS.get].
  destruct (String.eqb (groupLabel a) label); reflexivity.
Qed.

Lemma get_merkles (publicKey label : string) (als : list AllowList) :
  JS.get (merkles publicKey als) label
  = option_map (merkle_of publicKey) (find (has_label label) (rev als)).
Proof.
  unfold merkles, JS.reduce.
  rewrite reduce_from_fold_left, get_merkles_fold.
  destruct (find (has_label label) (rev als)); reflexivity.
Qed.

Lemma indexOf_from_spec (arr : list string) (x : string) :
  forall k : Z,
    (0 <= k)%Z ->
    (JS.indexOf_from arr x k = -1 /\ ~ In x arr)%Z
    \/ exists i : nat,
        JS.indexOf_from arr x k = (k + Z.of_nat i)%Z
        /\ nth_error arr i = Some x.
Proof.
  induction arr as [|y arr IH]; intros k Hk.
  - left. split; [reflexivity | intros []].
  - cbn [JS.indexOf_from].
    destruct (String.eqb_spec y x) as [->|Hne].
    + right. exists 0. split; [lia | reflexivity].
    + destruct (IH (k + 1)%Z) as [[E Hn]|[i [E Hi]]]; [lia | |].
      * left. split; [exact E |]. intros [H|H]; [congruence | now apply Hn].
      * right. exists (S i). split; [lia | exact Hi].
Qed.

Lemma indexOf_spec (arr : list string) (x : string) :
  (JS.indexOf arr x = -1 /\ ~ In x arr)%Z
  \/ exists i : nat,
      JS.indexOf arr x = Z.of_nat i /\ nth_error arr i = Some x.
Proof.
  unfold JS.indexOf.
  destruct (indexOf_from_spec arr x 0) as [H|[i [E Hi]]]; [lia | now left |].
  right. exists i. split; [lia | exact Hi].
Qed.

Lemma verifyProof_of_getProof (data : list string) (i : nat) (s : string)
      (root : Buffer) :
  nth_error data i = Some s ->
  (Z.of_nat i < 2 ^ 31)%Z ->
  exists r : Buffer,
    getRoot (constructor data) = Ok (Some r)
    /\ verifyProof (constructor data) (Z.of_nat i)
                   (getProof (constructor data) (Z.of_nat i)) root
       = Ok (BufferOps.equals r root).
Proof.
  intros Hs H31.
  pose proof (nth_error_hashes data _ s Hs) as Hh.
  destruct (layers_round_trip _ _ i _ (le_n _) Hh H31)
    as (r & Hlast & Hfold).
  exists r. split.
  - apply getRoot_of_last. now rewrite constructor_layers.
  - unfold verifyProof.
    rewrite constructor_leafs, index_of_nat, nth_error_map, Hs.
    cbn [option_map JS.spread JS.bind].
    now rewrite getProof_fold, constructor_layers, Hfold.
Qed.

(** X10. What [proofMemo.verifyProof] decides. Take a label whose first
    and last allowlist are the same, as when labels are not repeated, and
    a connected wallet. If the wallet is not in the list the answer is
    [false]. If it is, the answer is [true] exactly when the root handed
    in is, byte for byte, the root of the tree built from that list; the
    call does not throw. *)
Theorem proofMemo_verifyProof_decides
        (als : list AllowList) (al : AllowList) (publicKey : string)
        (merkleRoot : MerkleRoot) (label : option string) :
  find (has_label (label_or_default label)) als = Some al ->
  find (has_label (label_or_default label)) (rev als) = Some al ->
  (Z.of_nat (length (list_ al)) <= 2 ^ 31)%Z ->
  (~ In publicKey (string_list al) ->
   proofMemo_verifyProof (Some als) (Some publicKey) merkleRoot label
   = Ok false)
  /\ (In publicKey (string_list al) ->
      exists r : Buffer,
        getRoot (constructor (string_list al)) = Ok (Some r)
        /\ proofMemo_verifyProof (Some als) (Some publicKey) merkleRoot label
           = Ok (BufferOps.equals r (root_buffer merkleRoot))).
Proof.
  intros Hfirst Hlast Hlen.
  destruct als as [|al0 als]; [discriminate |].
  unfold proofMemo_verifyProof.
  fold (label_or_default label).
  fold (has_label (label_or_default label)).
  rewrite get_merkles, Hlast, Hfirst. cbn [option_map].
  unfold merkle_of. cbn [tree proof].
  destruct (indexOf_spec (string_list al) publicKey)
    as [[E Hn]|[i [E Hi]]].
  - rewrite E. cbn [Z.eqb]. split; [reflexivity | contradiction].
  - split.
    + intros Hn. exfalso. apply Hn. now apply nth_error_In in Hi.
    + intros _. rewrite E.
      assert (Hne : (Z.of_nat i =? -1)%Z = false) by (apply Z.eqb_neq; lia).
      rewrite Hne.
      assert (H31 : (Z.of_nat i < 2 ^ 31)%Z).
      { assert (i < length (string_list al))
          by (apply nth_error_Some; congruence).
        unfold string_list in *. rewrite length_map in *. lia. }
      apply (verifyProof_of_getProof _ i publicKey _ Hi H31).
Qed.

(** X11. The answers of [proofMemo.verifyProof] that need no tree. With
    no allowlist configured it answers [true] whatever it is given. With
    allowlists configured it answers [false] when no wallet is connected,
    when no allowlist carries the label, and when the wallet is not in
    the first allowlist carrying the label. *)
Theorem proofMemo_verifyProof_edge_cases
        (al0 : AllowList) (als : list AllowList) (publicKey : string)
        (merkleRoot : MerkleRoot) (label : option string) :
  (forall wallet : option string,
      proofMemo_verifyProof None wallet merkleRoot label = Ok true
      /\ proofMemo_verifyProof (Some []) wallet merkleRoot label = Ok true)
  /\ proofMemo_verifyProof (Some (al0 :: als)) None merkleRoot label
     = Ok false
  /\ (find (has_label (label_or_default label)) (al0 :: als) = None ->
      proofMemo_verifyProof (Some (al0 :: als)) (Some publicKey)
                            merkleRoot label = Ok false)
  /\ (forall al : AllowList,
         find (has_label (label_or_default label)) (al0 :: als) = Some al ->
         ~ In publicKey (string_list al) ->
         proofMemo_verifyProof (Some (al0 :: als)) (Some publicKey)
                               merkleRoot label = Ok false).
Proof.
  split; [intros wallet; split; reflexivity |].
  split; [reflexivity |].
  split.
  - intros Hnone. unfold proofMemo_verifyProof.
    fold (label_or_default label).
    fold (has_label (label_or_default label)).
    rewrite Hnone.
    destruct (JS.get (merkles publicKey (al0 :: als))
                     (label_or_default label)); reflexivity.
  - intros al Hfirst Hn. unfold proofMemo_verifyProof.
    fold (label_or_default label).
    fold (has_label (label_or_default label)).
    rewrite Hfirst.
    destruct (indexOf_spec (string_list al) publicKey)
      as [[E _]|[i [_ Hi]]].
    + rewrite E.
      destruct (JS.get (merkles publicKey (al0 :: als))
                       (label_or_default label)); reflexivity.
    + exfalso. apply Hn. now apply nth_error_In in Hi.
Qed.

(** X12. [tokenHoldings]: a token is kept exactly when the wallet holds
    at least one NFT, the token is among [allTokens] and its mint is the
    address of none of the NFTs held. With no NFT held the result is
    empty, whatever [allTokens] holds. *)
Theorem tokenHoldings_spec (nftHoldings : list Metadata)
        (allTokens : list Token) (x : Token) :
  In x (tokenHoldings nftHoldings allTokens)
  <-> nftHoldings <> []
      /\ In x allTokens
      /\ forall y : Metadata, In y nftHoldings -> address y <> mint x.
Proof.
  unfold tokenHoldings.
  destruct nftHoldings as [|n0 nfts].
  - cbn. split; [intros [] | intros [H _]; congruence].
  - destruct allTokens as [|t0 ts].
    + cbn. split; [intros [] | intros (_ & [] & _)].
    + cbn [length Nat.eqb orb]. rewrite filter_In.
      split.
      * intros [Hin Hf]. split; [discriminate | split; [exact Hin |]].
        intros y Hy E.
        destruct (find (fun y => BufferOps.equals (mint x) (address y))
                       (n0 :: nfts)) eqn:Ef; [discriminate |].
        pose proof (find_none _ _ Ef y Hy) as Hfalse. cbn in Hfalse.
        rewrite E, equals_refl in Hfalse. discriminate.
      * intros (_ & Hin & Hall). split; [exact Hin |].
        destruct (find (fun y => BufferOps.equals (mint x) (address y))
                       (n0 :: nfts)) eqn:Ef; [| reflexivity].
        apply find_some in Ef. destruct Ef as [Hy He].
        apply equals_true_iff in He. exfalso.
        apply (Hall m Hy). now symmetry.
Qed.

(** X13. What the memo stores in [merkles]: the entry found under a
    label comes from an allowlist carrying that label and holds the tree
    of its list; when the wallet is in the list the stored proof makes
    [verifyClaim] answer [true] for the wallet on the stored tree, and
    when it is not the stored proof is empty. *)
Theorem merkles_entry_proof_verifies
        (als : list AllowList) (publicKey label : string) (m : Merkle) :
  Forall (fun al => (Z.of_nat (length (list_ al)) <= 2 ^ 31)%Z) als ->
  JS.get (merkles publicKey als) label = Some m ->
  exists al : AllowList,
    In al als
    /\ groupLabel al = label
    /\ tree m = constructor (string_list al)
    /\ (In publicKey (string_list al) ->
        verifyClaim (tree m) publicKey (proof m) = Ok true)
    /\ (~ In publicKey (string_list al) -> proof m = []).
Proof.
  intros Hlen Hget. rewrite get_merkles in Hget.
  destruct (find (has_label label) (rev als)) as [al|] eqn:Ef;
    [| discriminate].
  injection Hget as <-.
  apply find_some in Ef. destruct Ef as [Hin Hlab].
  apply in_rev in Hin.
  exists al. split; [exact Hin | split; [| split; [reflexivity |]]].
  - unfold has_label in Hlab. now apply String.eqb_eq in Hlab.
  - unfold merkle_of. cbn [tree proof].
    destruct (indexOf_spec (string_list al) publicKey)
      as [[E Hn]|[i [E Hi]]].
    + rewrite E. cbn [Z.eqb]. split; [contradiction | reflexivity].
    + split.
      * intros _. rewrite E.
        assert (Hne : (Z.of_nat i =? -1)%Z = false)
          by (apply Z.eqb_neq; lia).
        rewrite Hne.
        apply getProof_verifyClaim_round_trip_aux; [exact Hi |].
        assert (i < length (string_list al))
          by (apply nth_error_Some; congruence).
        rewrite Forall_forall in Hlen. specialize (Hlen al Hin).
        unfold string_list in *. rewrite length_map in *. lia.
      * intros Hn. exfalso. apply Hn. now apply nth_error_In in Hi.
Qed.

End MerkleTree.

(** ** Running the class on concrete allowlists

    The theorems above hold for every digest function; below the
    parameter is Keccak-256. *)

Definition hex_bytes (b : Buffer) : list N := map Byte.to_N b.

Example keccak_256_of_empty :
  hex_bytes (Keccak.keccak_256 [])
  = [0xc5; 0xd2; 0x46; 0x01; 0x86; 0xf7; 0x23; 0x3c;
     0x92; 0x7e; 0x7d; 0xb2; 0xdc; 0xc7; 0x03; 0xc0;
     0xe5; 0x00; 0xb6; 0x53; 0xca; 0x82; 0x27; 0x3b;
     0x7b; 0xfa; 0xd8; 0x04; 0x5d; 0x85; 0xa4; 0x70]%N.
Proof. vm_compute. reflexivity. Qed.

Example keccak_256_of_abc :
  hex_bytes (Keccak.keccak_256 (BufferOps.from "abc"))
  = [0x4e; 0x03; 0x65; 0x7a; 0xea; 0x45; 0xa9; 0x4f;
     0xc7; 0xd4; 0x7b; 0xa8; 0x26; 0xc8; 0xd6; 0x67;
     0xc0; 0xd1; 0xe6; 0xe3; 0x3a; 0x64; 0xa0; 0x36;
     0xec; 0x44; 0xf5; 0x8f; 0xa1; 0x2d; 0x6c; 0x45]%N.
Proof. vm_compute. reflexivity. Qed.

Definition abc : list string := ["alice"; "bob"; "carol"]%string.

Definition abc_tree : MerkleTree := constructor Keccak.keccak_256 abc.

(** The root of [abc_tree], written out: "alice" and "bob" are paired,
    "carol" is carried to layer 1 and paired there. *)
Definition abc_root : Buffer :=
  let leaf := fun s => nodeHash Keccak.keccak_256 (BufferOps.from s) in
  internalHash Keccak.keccak_256
    (internalHash Keccak.keccak_256 (leaf "alice"%string)
                  (Some (leaf "bob"%string)))
    (Some (leaf "carol"%string)).

Example abc_layer_lengths :
  map (@length Buffer) (layers abc_tree) = [3; 2; 1].
Proof. vm_compute. reflexivity. Qed.

Example abc_proof_lengths :
  map (fun i => length (getProof abc_tree i)) [0; 1; 2]%Z = [2; 2; 1].
Proof. vm_compute. reflexivity. Qed.

Example abc_alice_verifies :
  verifyClaim Keccak.keccak_256 abc_tree "alice" (getProof abc_tree 0)
  = Ok true
  /\ verifyClaim Keccak.keccak_256 abc_tree "dave" (getProof abc_tree 0)
     = Ok false.
Proof. split; vm_compute; reflexivity. Qed.

(** At [2^31] the operands of [^] wrap to negative 32-bit integers. *)
Example bitxor_wraps_at_2_31 :
  JS.bitxor (2 ^ 31 - 1) 1 = (2 ^ 31 - 2)%Z
  /\ JS.bitxor (2 ^ 31) 1 = (- 2 ^ 31 + 1)%Z.
Proof. split; reflexivity. Qed.

(** Four identities: the root is the pairing of the two pairings. *)
Example abcd_root :
  let leaf := fun s => nodeHash Keccak.keccak_256 (BufferOps.from s) in
  let internal := fun a b => internalHash Keccak.keccak_256 a (Some b) in
  getRoot (constructor Keccak.keccak_256 ["a"; "b"; "c"; "d"]%string)
  = Ok (Some (internal (internal (leaf "a"%string) (leaf "b"%string))
                       (internal (leaf "c"%string) (leaf "d"%string)))).
Proof. vm_compute. reflexivity. Qed.

Lemma getProof_verifyProof_round_trip_witness :
  (0 <= 2 < Z.of_nat (length abc))%Z
  /\ (2 < 2 ^ 31)%Z
  /\ exists root : Buffer,
       getRoot abc_tree = Ok (Some root)
       /\ verifyProof Keccak.keccak_256 abc_tree 2 (getProof abc_tree 2) root
          = Ok true.
Proof.
  assert (H1 : (0 <= 2 < Z.of_nat (length abc))%Z) by (simpl; lia).
  assert (H2 : (2 < 2 ^ 31)%Z) by reflexivity.
  split; [exact H1 | split; [exact H2 |]].
  exact (getProof_verifyProof_round_trip Keccak.keccak_256 abc 2 H1 H2).
Defined.

Lemma leaf_hash_domain_separation_witness :
  nth_error ["bob"; "alice"; "bob"]%string 2 = Some "bob"%string
  /\ nodeHash Keccak.keccak_256 (BufferOps.from "bob")
     = Keccak.keccak_256 (x00 :: BufferOps.from "bob")
  /\ exists layer0 : list Buffer,
       nth_error (layers (constructor Keccak.keccak_256
                                      ["bob"; "alice"; "bob"]%string)) 0
       = Some layer0
       /\ length layer0 = 3
       /\ nth_error layer0 2
          = Some (Keccak.keccak_256 (x00 :: BufferOps.from "bob")).
Proof.
  split; [reflexivity |].
  exact (leaf_hash_domain_separation
           Keccak.keccak_256 ["bob"; "alice"; "bob"]%string 2 "bob" eq_refl).
Defined.

Lemma odd_layer_carries_last_witness :
  let layer0 := map (nodeHash Keccak.keccak_256) (map BufferOps.from abc) in
  nth_error (layers abc_tree) 0 = Some layer0
  /\ Nat.odd (length layer0) = true
  /\ 1 < length layer0
  /\ exists (next : list Buffer) (last : Buffer),
       nth_error (layers abc_tree) 1 = Some next
       /\ length next = (length layer0 + 1) / 2
       /\ JS.last_elem layer0 = Some last
       /\ JS.last_elem next = Some last.
Proof.
  intros layer0.
  assert (H1 : nth_error (layers abc_tree) 0 = Some layer0) by reflexivity.
  assert (H2 : Nat.odd (length layer0) = true) by reflexivity.
  assert (H3 : 1 < length layer0) by (simpl; lia).
  split; [exact H1 | split; [exact H2 | split; [exact H3 |]]].
  exact (odd_layer_carries_last Keccak.keccak_256 abc 0 layer0 H1 H2 H3).
Defined.

Lemma layer_count_witness :
  1 <= length abc
  /\ length (layers abc_tree) = Nat.log2_up (length abc) + 1
  /\ (length abc = 1 -> length (layers abc_tree) = 1)
  /\ exists root : Buffer,
       JS.last_elem (layers abc_tree) = Some [root]
       /\ getRoot abc_tree = Ok (Some root).
Proof.
  assert (H1 : 1 <= length abc) by (simpl; lia).
  split; [exact H1 |].
  exact (layer_count Keccak.keccak_256 abc H1).
Defined.

(** C6, counterexample. [abc_tree] has 3 leaves, so 3, 8 and -1 are
    outside [0, 3). [getProof] returns for each of them: two hashes of the
    tree for 3, the empty proof for 8, three [undefined] entries for -1. *)
Lemma getProof_out_of_range_returns :
  getProof abc_tree 3
  = [Some (nodeHash Keccak.keccak_256 (BufferOps.from "carol"));
     Some (internalHash Keccak.keccak_256
             (nodeHash Keccak.keccak_256 (BufferOps.from "alice"))
             (Some (nodeHash Keccak.keccak_256 (BufferOps.from "bob"))))]
  /\ getProof abc_tree 8 = []
  /\ getProof abc_tree (-1) = [None; None; None].
Proof. repeat split; vm_compute; reflexivity. Qed.

Lemma verify_true_iff_recomputed_root_witness :
  let leaf := fun s => nodeHash Keccak.keccak_256 (BufferOps.from s) in
  let siblings := [leaf "bob"%string; leaf "carol"%string] in
  let entries := getProof abc_tree (-1) in
  JS.index (leafs abc_tree) 0 = Some (BufferOps.from "alice")
  /\ getRoot abc_tree = Ok (Some abc_root)
  /\ ((exists b : bool,
          verifyProof Keccak.keccak_256 abc_tree 0 (map Some siblings)
                      abc_root = Ok b
          /\ verifyRoot Keccak.keccak_256 abc_tree 0 (map Some siblings)
                        abc_root = Ok b
          /\ (b = true
              <-> spec_recompute Keccak.keccak_256
                    (spec_leaf Keccak.keccak_256 (BufferOps.from "alice"))
                    siblings = abc_root)
          /\ (b = false
              <-> spec_recompute Keccak.keccak_256
                    (spec_leaf Keccak.keccak_256 (BufferOps.from "alice"))
                    siblings <> abc_root))
      /\ (exists b : bool,
             verifyProof Keccak.keccak_256 abc_tree 0 entries abc_root
             = Ok b
             /\ verifyRoot Keccak.keccak_256 abc_tree 0 entries abc_root
                = Ok b
             /\ (b = true
                 <-> fold_left (internalHash Keccak.keccak_256) entries
                       (Keccak.keccak_256 (x00 :: BufferOps.from "alice"))
                     = abc_root)
             /\ (b = false
                 <-> fold_left (internalHash Keccak.keccak_256) entries
                       (Keccak.keccak_256 (x00 :: BufferOps.from "alice"))
                     <> abc_root)))
  /\ ((exists b : bool,
          verifyClaim Keccak.keccak_256 abc_tree "alice" (map Some siblings)
          = Ok b
          /\ (b = true
              <-> spec_recompute Keccak.keccak_256
                    (spec_leaf Keccak.keccak_256 (BufferOps.from "alice"))
                    siblings = abc_root)
          /\ (b = false
              <-> spec_recompute Keccak.keccak_256
                    (spec_leaf Keccak.keccak_256 (BufferOps.from "alice"))
                    siblings <> abc_root))
      /\ (exists b : bool,
             verifyClaim Keccak.keccak_256 abc_tree "alice" entries = Ok b
             /\ (b = true
                 <-> fold_left (internalHash Keccak.keccak_256) entries
                       (Keccak.keccak_256 (x00 :: BufferOps.from "alice"))
                     = abc_root)
             /\ (b = false
                 <-> fold_left (internalHash Keccak.keccak_256) entries
                       (Keccak.keccak_256 (x00 :: BufferOps.from "alice"))
                     <> abc_root))).
Proof.
  intros leaf siblings entries.
  assert (H1 : JS.index (leafs abc_tree) 0
               = Some (BufferOps.from "alice")) by reflexivity.
  assert (H2 : getRoot abc_tree = Ok (Some abc_root))
    by (vm_compute; reflexivity).
  destruct (verify_true_iff_recomputed_root
              Keccak.keccak_256 abc_tree 0 (BufferOps.from "alice") "alice"
              siblings entries abc_root abc_root) as [P1 P2].
  split; [exact H1 | split; [exact H2 | split]];
    [exact (P1 H1) | exact (P2 H2)].
Defined.

(** The two verdicts of the verifier on the three-leaf tree: the
    siblings of "alice" recompute the root, and the same siblings cut to
    the first one do not. *)
Example abc_verifier_verdicts :
  let leaf := fun s => nodeHash Keccak.keccak_256 (BufferOps.from s) in
  verifyProof Keccak.keccak_256 abc_tree 0
              [Some (leaf "bob"%string); Some (leaf "carol"%string)]
              abc_root = Ok true
  /\ verifyProof Keccak.keccak_256 abc_tree 0
                 [Some (leaf "bob"%string)] abc_root = Ok false
  /\ spec_recompute Keccak.keccak_256
       (spec_leaf Keccak.keccak_256 (BufferOps.from "alice"))
       [leaf "bob"%string; leaf "carol"%string] = abc_root.
Proof. intros leaf. split; [| split]; vm_compute; reflexivity. Qed.

(** C8, counterexample. The root of the one-leaf tree of "bob" is supplied
    from outside, and "bob" with the empty proof folds to it; [verifyClaim]
    has no parameter to take it, and on the local tree of "alice" it
    answers [false] for "bob"; with no tree built locally it throws. *)
Lemma verifyClaim_ignores_supplied_root :
  let supplied := nodeHash Keccak.keccak_256 (BufferOps.from "bob") in
  getRoot (constructor Keccak.keccak_256 ["bob"%string])
  = Ok (Some supplied)
  /\ fold_proof Keccak.keccak_256
       (nodeHash Keccak.keccak_256 (BufferOps.from "bob")) [] = supplied
  /\ verifyClaim Keccak.keccak_256
       (constructor Keccak.keccak_256 ["alice"%string]) "bob" [] = Ok false
  /\ verifyClaim Keccak.keccak_256
       (constructor Keccak.keccak_256 []) "bob" [] = Throw TypeError.
Proof. repeat split; vm_compute; reflexivity. Qed.

Lemma verifyClaim_decides_against_own_root_witness :
  getRoot abc_tree = Ok (Some abc_root)
  /\ verifyClaim Keccak.keccak_256 abc_tree "alice" (getProof abc_tree 0)
     = Ok (BufferOps.equals
             (fold_proof Keccak.keccak_256
                (nodeHash Keccak.keccak_256 (BufferOps.from "alice"))
                (getProof abc_tree 0)) abc_root)
  /\ forall (idx : Z) (leaf supplied : Buffer),
       JS.index (leafs abc_tree) idx = Some leaf ->
       verifyProof Keccak.keccak_256 abc_tree idx (getProof abc_tree 0)
                   supplied
       = Ok (BufferOps.equals
               (fold_proof Keccak.keccak_256
                  (nodeHash Keccak.keccak_256 leaf) (getProof abc_tree 0))
               supplied)
       /\ verifyRoot Keccak.keccak_256 abc_tree idx (getProof abc_tree 0)
                     supplied
          = Ok (BufferOps.equals
                  (fold_proof Keccak.keccak_256
                     (nodeHash Keccak.keccak_256 leaf) (getProof abc_tree 0))
                  supplied).
Proof.
  assert (H : getRoot abc_tree = Ok (Some abc_root))
    by (vm_compute; reflexivity).
  split; [exact H |].
  exact (verifyClaim_decides_against_own_root
           Keccak.keccak_256 abc_tree "alice" (getProof abc_tree 0)
           abc_root H).
Defined.

Lemma leafs_layer0_and_verifier_witness :
  nth_error abc 1 = Some "bob"%string
  /\ nth_error (leafs abc_tree) 1 = Some (BufferOps.from "bob")
  /\ (exists layer0 : list Buffer,
        nth_error (layers abc_tree) 0 = Some layer0
        /\ nth_error layer0 1
           = Some (nodeHash Keccak.keccak_256 (BufferOps.from "bob")))
  /\ forall (other_layers : list (list Buffer))
            (proof : list (option Buffer)) (root : Buffer),
       verifyProof Keccak.keccak_256
         (mkMerkleTree abc (leafs abc_tree) other_layers) 1 proof root
       = Ok (BufferOps.equals
               (fold_proof Keccak.keccak_256
                  (nodeHash Keccak.keccak_256 (BufferOps.from "bob")) proof)
               root).
Proof.
  split; [reflexivity |].
  exact (leafs_layer0_and_verifier Keccak.keccak_256 abc 1 "bob" eq_refl).
Defined.

(** ** Witnesses of the further properties *)

Definition abc_layer1 : list Buffer :=
  let leaf := fun s => nodeHash Keccak.keccak_256 (BufferOps.from s) in
  [internalHash Keccak.keccak_256 (leaf "alice"%string)
                (Some (leaf "bob"%string));
   leaf "carol"%string].

Definition abc_allowlist : AllowList :=
  mkAllowList "default" [ItemString "alice"; ItemString "bob";
                         ItemString "carol"].

Definition vip_allowlist : AllowList :=
  mkAllowList "vip" [ItemBytes [xde; xad]; ItemString "erin"].

Lemma getProof_in_range_defined_bounded_witness :
  (0 <= 2 < Z.of_nat (length abc))%Z
  /\ (2 < 2 ^ 31)%Z
  /\ Forall defined (getProof abc_tree 2)
  /\ length (getProof abc_tree 2) <= Nat.log2_up (length abc).
Proof.
  assert (H1 : (0 <= 2 < Z.of_nat (length abc))%Z) by (simpl; lia).
  assert (H2 : (2 < 2 ^ 31)%Z) by reflexivity.
  split; [exact H1 | split; [exact H2 |]].
  exact (getProof_in_range_defined_bounded Keccak.keccak_256 abc 2 H1 H2).
Defined.

Lemma getProof_verifyClaim_round_trip_witness :
  nth_error abc 1 = Some "bob"%string
  /\ (Z.of_nat 1 < 2 ^ 31)%Z
  /\ verifyClaim Keccak.keccak_256 abc_tree "bob"
                 (getProof abc_tree (Z.of_nat 1)) = Ok true.
Proof.
  assert (H2 : (Z.of_nat 1 < 2 ^ 31)%Z) by reflexivity.
  split; [reflexivity | split; [exact H2 |]].
  exact (getProof_verifyClaim_round_trip
           Keccak.keccak_256 abc 1 "bob" eq_refl H2).
Defined.

Lemma layer_k_length_witness :
  nth_error (layers abc_tree) 1 = Some abc_layer1
  /\ length abc_layer1 = (length abc + 2 ^ 1 - 1) / 2 ^ 1.
Proof.
  assert (H : nth_error (layers abc_tree) 1 = Some abc_layer1)
    by reflexivity.
  split; [exact H |].
  exact (layer_k_length Keccak.keccak_256 abc 1 abc_layer1 H).
Defined.

Lemma swap_pair_same_root_witness :
  Nat.even (length ["alice"; "bob"]%string) = true
  /\ getRoot (constructor Keccak.keccak_256
                          (app ["alice"; "bob"]%string
                               ["carol"; "dave"]%string))
     = getRoot (constructor Keccak.keccak_256
                            (app ["alice"; "bob"]%string
                                 ["dave"; "carol"]%string)).
Proof.
  split; [reflexivity |].
  exact (swap_pair_same_root Keccak.keccak_256
           ["alice"; "bob"]%string [] "carol" "dave" eq_refl).
Defined.

(** Below [-2^31] the index is out of the range of X5 and X8: at
    [-2^32] the first sibling position wraps to 1, and the proof starts
    with a hash. *)
Example getProof_below_int32_range :
  getProof abc_tree (- 2 ^ 32)
  = [Some (nodeHash Keccak.keccak_256 (BufferOps.from "bob")); None; None]
  /\ getProof (constructor Keccak.keccak_256 ["alice"%string]) (- 2 ^ 32)
     = [].
Proof. split; vm_compute; reflexivity. Qed.

Lemma getProof_negative_index_witness :
  (- 2 ^ 31 <= -1 < 0)%Z
  /\ JS.index (leafs abc_tree) 0 = Some (BufferOps.from "alice")
  /\ getProof abc_tree (-1) = repeat None (length (layers abc_tree))
  /\ verifyProof Keccak.keccak_256 abc_tree 0 (getProof abc_tree (-1))
                 abc_root
     = Ok (BufferOps.equals
             (nodeHash Keccak.keccak_256 (BufferOps.from "alice")) abc_root).
Proof.
  assert (H1 : (- 2 ^ 31 <= -1 < 0)%Z) by (split; [discriminate | reflexivity]).
  assert (H2 : JS.index (leafs abc_tree) 0 = Some (BufferOps.from "alice"))
    by reflexivity.
  split; [exact H1 | split; [exact H2 |]].
  exact (getProof_negative_index Keccak.keccak_256 abc_tree (-1) 0
           (BufferOps.from "alice") abc_root H1 H2).
Defined.

Lemma getRootArray_round_trip_witness :
  getRoot abc_tree = Ok (Some abc_root)
  /\ exists vs : list Z,
       getRootArray abc_tree = Ok vs
       /\ length vs = length abc_root
       /\ Forall (fun v => 0 <= v <= 255)%Z vs
       /\ BufferOps.from_array vs = abc_root.
Proof.
  assert (H : getRoot abc_tree = Ok (Some abc_root))
    by (vm_compute; reflexivity).
  split; [exact H |].
  exact (getRootArray_round_trip abc_tree abc_root H).
Defined.

Lemma getHexProof_getProofArray_in_range_witness :
  (0 <= 0 < Z.of_nat (length abc))%Z
  /\ (0 < 2 ^ 31)%Z
  /\ exists bs : list Buffer,
       getProof abc_tree 0 = map Some bs
       /\ getHexProof abc_tree 0 = Ok (map BufferOps.toString_hex bs)
       /\ getProofArray abc_tree 0 = Ok (map BufferOps.values bs)
       /\ map BufferOps.from_array (map BufferOps.values bs) = bs.
Proof.
  assert (H1 : (0 <= 0 < Z.of_nat (length abc))%Z) by (simpl; lia).
  assert (H2 : (0 < 2 ^ 31)%Z) by reflexivity.
  split; [exact H1 | split; [exact H2 |]].
  exact (getHexProof_getProofArray_in_range Keccak.keccak_256 abc 0 H1 H2).
Defined.

Definition bac_tree : MerkleTree :=
  constructor Keccak.keccak_256 ["bob"; "alice"; "carol"]%string.

Lemma getHexRoot_lossless_witness :
  getHexRoot abc_tree = Ok (BufferOps.toString_hex abc_root)
  /\ getHexRoot bac_tree = Ok (BufferOps.toString_hex abc_root)
  /\ exists r : Buffer,
       getRoot abc_tree = Ok (Some r)
       /\ getRoot bac_tree = Ok (Some r)
       /\ String.length (BufferOps.toString_hex abc_root) = 2 * length r.
Proof.
  assert (H1 : getHexRoot abc_tree = Ok (BufferOps.toString_hex abc_root))
    by (vm_compute; reflexivity).
  assert (H2 : getHexRoot bac_tree = Ok (BufferOps.toString_hex abc_root))
    by (vm_compute; reflexivity).
  split; [exact H1 | split; [exact H2 |]].
  exact (getHexRoot_lossless abc_tree bac_tree
           (BufferOps.toString_hex abc_root) H1 H2).
Defined.

Lemma hex_and_array_accessors_throw_witness :
  layers (constructor Keccak.keccak_256 []) = []
  /\ (getHexRoot (constructor Keccak.keccak_256 []) = Throw TypeError
      /\ getRootArray (constructor Keccak.keccak_256 []) = Throw TypeError
      /\ getHexProof (constructor Keccak.keccak_256 []) 0 = Ok []
      /\ getProofArray (constructor Keccak.keccak_256 []) 0 = Ok [])
  /\ layers abc_tree <> []
  /\ (- 2 ^ 31 <= -1 < 0)%Z
  /\ (getHexProof abc_tree (-1) = Throw TypeError
      /\ getProofArray abc_tree (-1) = Throw TypeError).
Proof.
  assert (H1 : layers (constructor Keccak.keccak_256 []) = [])
    by reflexivity.
  assert (H2 : layers abc_tree <> [])
    by (intros E; vm_compute in E; discriminate E).
  assert (H3 : (- 2 ^ 31 <= -1 < 0)%Z)
    by (split; [discriminate | reflexivity]).
  split; [exact H1 | split].
  - exact (proj1 (hex_and_array_accessors_throw
                    (constructor Keccak.keccak_256 []) 0) H1).
  - split; [exact H2 | split; [exact H3 |]].
    exact (proj2 (hex_and_array_accessors_throw abc_tree (-1)) H2 H3).
Defined.

Lemma proofMemo_verifyProof_decides_witness :
  let als := [abc_allowlist; vip_allowlist] in
  find (has_label (label_or_default None)) als = Some abc_allowlist
  /\ find (has_label (label_or_default None)) (rev als) = Some abc_allowlist
  /\ (Z.of_nat (length (list_ abc_allowlist)) <= 2 ^ 31)%Z
  /\ In "bob"%string (string_list abc_allowlist)
  /\ (exists r : Buffer,
         getRoot (constructor Keccak.keccak_256 (string_list abc_allowlist))
         = Ok (Some r)
         /\ proofMemo_verifyProof Keccak.keccak_256 (Some als)
              (Some "bob"%string) (RootBytes abc_root) None
            = Ok (BufferOps.equals r (root_buffer (RootBytes abc_root))))
  /\ ~ In "dave"%string (string_list abc_allowlist)
  /\ proofMemo_verifyProof Keccak.keccak_256 (Some als)
       (Some "dave"%string) (RootBytes abc_root) None
     = Ok false.
Proof.
  intros als.
  assert (H1 : find (has_label (label_or_default None)) als
               = Some abc_allowlist) by reflexivity.
  assert (H2 : find (has_label (label_or_default None)) (rev als)
               = Some abc_allowlist) by reflexivity.
  assert (H3 : (Z.of_nat (length (list_ abc_allowlist)) <= 2 ^ 31)%Z)
    by (simpl; lia).
  assert (H4 : In "bob"%string (string_list abc_allowlist))
    by (right; left; reflexivity).
  assert (H5 : ~ In "dave"%string (string_list abc_allowlist))
    by (intros [H|[H|[H|[]]]]; discriminate H).
  split; [exact H1 | split; [exact H2 | split; [exact H3 |]]].
  split; [exact H4 | split].
  - exact (proj2 (proofMemo_verifyProof_decides Keccak.keccak_256 als
                    abc_allowlist "bob" (RootBytes abc_root) None H1 H2 H3)
                 H4).
  - split; [exact H5 |].
    exact (proj1 (proofMemo_verifyProof_decides Keccak.keccak_256 als
                    abc_allowlist "dave" (RootBytes abc_root) None H1 H2 H3)
                 H5).
Defined.

Lemma proofMemo_verifyProof_edge_cases_witness :
  proofMemo_verifyProof Keccak.keccak_256 None (Some "dave"%string)
                        (RootBytes abc_root) None = Ok true
  /\ proofMemo_verifyProof Keccak.keccak_256 (Some [abc_allowlist]) None
                           (RootBytes abc_root) None = Ok false
  /\ find (has_label (label_or_default (Some "vip"%string))) [abc_allowlist]
     = None
  /\ proofMemo_verifyProof Keccak.keccak_256 (Some [abc_allowlist])
       (Some "bob"%string) (RootBytes abc_root) (Some "vip"%string)
     = Ok false
  /\ find (has_label (label_or_default None)) [abc_allowlist]
     = Some abc_allowlist
  /\ ~ In "dave"%string (string_list abc_allowlist)
  /\ proofMemo_verifyProof Keccak.keccak_256 (Some [abc_allowlist])
       (Some "dave"%string) (RootBytes abc_root) None
     = Ok false.
Proof.
  assert (H1 : find (has_label (label_or_default (Some "vip"%string)))
                    [abc_allowlist] = None) by reflexivity.
  assert (H2 : find (has_label (label_or_default None)) [abc_allowlist]
               = Some abc_allowlist) by reflexivity.
  assert (H3 : ~ In "dave"%string (string_list abc_allowlist))
    by (intros [H|[H|[H|[]]]]; discriminate H).
  destruct (proofMemo_verifyProof_edge_cases Keccak.keccak_256
              abc_allowlist [] "bob" (RootBytes abc_root)
              (Some "vip"%string)) as (_ & _ & Pnone & _).
  destruct (proofMemo_verifyProof_edge_cases Keccak.keccak_256
              abc_allowlist [] "dave" (RootBytes abc_root) None)
    as (Popen & Pwallet & _ & Pabsent).
  split; [exact (proj1 (Popen (Some "dave"%string))) |].
  split; [exact Pwallet |].
  split; [exact H1 | split; [exact (Pnone H1) |]].
  split; [exact H2 | split; [exact H3 |]].
  exact (Pabsent abc_allowlist H2 H3).
Defined.

Definition token_a : Token := mkToken [x01] 5 0.
Definition token_b : Token := mkToken [x02] 7 0.
Definition nft_b : Metadata := mkMetadata [x02].

Lemma tokenHoldings_spec_witness :
  In token_a (tokenHoldings [nft_b] [token_a; token_b])
  /\ ~ In token_b (tokenHoldings [nft_b] [token_a; token_b])
  /\ ~ In token_a (tokenHoldings [] [token_a; token_b]).
Proof.
  split; [| split].
  - apply (proj2 (tokenHoldings_spec [nft_b] [token_a; token_b] token_a)).
    split; [discriminate | split; [left; reflexivity |]].
    intros y [<-|[]]. discriminate.
  - intros H.
    apply (proj1 (tokenHoldings_spec [nft_b] [token_a; token_b] token_b))
      in H.
    destruct H as (_ & _ & H). apply (H nft_b); [left |]; reflexivity.
  - intros H.
    apply (proj1 (tokenHoldings_spec [] [token_a; token_b] token_a)) in H.
    destruct H as (H & _). now apply H.
Defined.

Lemma merkles_entry_proof_verifies_witness :
  let als := [abc_allowlist; vip_allowlist] in
  let m := merkle_of Keccak.keccak_256 "bob" abc_allowlist in
  Forall (fun al => (Z.of_nat (length (list_ al)) <= 2 ^ 31)%Z) als
  /\ JS.get (merkles Keccak.keccak_256 "bob" als) "default" = Some m
  /\ exists al : AllowList,
       In al als
       /\ groupLabel al = "default"%string
       /\ tree m = constructor Keccak.keccak_256 (string_list al)
       /\ (In "bob"%string (string_list al) ->
           verifyClaim Keccak.keccak_256 (tree m) "bob" (proof m) = Ok true)
       /\ (~ In "bob"%string (string_list al) -> proof m = []).
Proof.
  intros als m.
  assert (H1 : Forall (fun al => (Z.of_nat (length (list_ al)) <= 2 ^ 31)%Z)
                      als)
    by (repeat constructor; simpl; lia).
  assert (H2 : JS.get (merkles Keccak.keccak_256 "bob" als) "default"
               = Some m) by reflexivity.
  split; [exact H1 | split; [exact H2 |]].
  exact (merkles_entry_proof_verifies Keccak.keccak_256 als "bob" "default"
           m H1 H2).
Defined.
